(** * Workspace manager of multi-agent-assist: a shallow embedding

    Source: [src/multi_agent_mcp/workspace/manager.py]; of its callers in
    [src/multi_agent_mcp/core/mcp_server.py], the workspace status.

    The Python class [WorkspaceManager] keeps an in-memory table of per-path
    metadata, an activity table per agent, a day-partitioned event log on
    disk and a snapshot file.  Its coroutines are embedded here as
    computations in a state-and-exception monad over a [Workspace] record:
    Python mutations persist when an exception propagates, so the state is
    threaded through both outcomes.

    What the embedding abstracts:
    - [datetime.now()] is one value [now] per call, supplied by the
      environment [Env];
    - the cross-process mutex of [filelock.FileLock] is an oracle of the
      environment: [mutex_held env p] says that the lock file [p] cannot be
      obtained within the timeout.  The source keeps no reference to the
      lock object after [acquire_file] returns, so the workspace carries no
      mutex state of its own;
    - file contents live in [disk]; [io_fault env p] makes opening [p] raise
      [OSError].  Directories are not modelled ([mkdir] does nothing,
      [exists()] looks for a file), and appending to the event log is taken
      to succeed;
    - [file_metadata] is a finite map: the order in which Python iterates
      over the dict is not kept, so the lists built from it are meant up to
      order;
    - within one call the steps run without interleaving (the source yields
      to other coroutines only at its [await] points, after the record has
      been updated);
    - JSON encoding of events and of the snapshot is the identity on the
      records below, except for the enum values, which are kept as the
      strings the source writes and parses back. *)

From stdpp Require Import gmap strings list fin_maps sorting pretty.

Local Open Scope string_scope.

(** ** Enumerations *)

Inductive AgentType := CLAUDE | GEMINI | HUMAN.

Inductive FileState :=
  AVAILABLE | LOCKED_READ | LOCKED_WRITE | MODIFIED | CONFLICT.

#[global] Instance AgentType_eq_dec : EqDecision AgentType.
Proof. solve_decision. Defined.

#[global] Instance FileState_eq_dec : EqDecision FileState.
Proof. solve_decision. Defined.

Definition AgentType_value (a : AgentType) : string :=
  match a with
  | CLAUDE => "claude"
  | GEMINI => "gemini"
  | HUMAN => "human"
  end.

Definition FileState_value (s : FileState) : string :=
  match s with
  | AVAILABLE => "available"
  | LOCKED_READ => "locked_read"
  | LOCKED_WRITE => "locked_write"
  | MODIFIED => "modified"
  | CONFLICT => "conflict"
  end.

(** [AgentType(v)] and [FileState(v)]: lookup by value, [None] standing for
    the [ValueError] Python raises on an unknown value. *)
Definition AgentType_of_value (v : string) : option AgentType :=
  if decide (v = "claude") then Some CLAUDE
  else if decide (v = "gemini") then Some GEMINI
  else if decide (v = "human") then Some HUMAN
  else None.

Definition FileState_of_value (v : string) : option FileState :=
  if decide (v = "available") then Some AVAILABLE
  else if decide (v = "locked_read") then Some LOCKED_READ
  else if decide (v = "locked_write") then Some LOCKED_WRITE
  else if decide (v = "modified") then Some MODIFIED
  else if decide (v = "conflict") then Some CONFLICT
  else None.

(** ** Paths

    A [pathlib.Path] is its anchor (absolute or not) and its components. *)

Record Path := mkPath { is_absolute : bool; parts : list string }.

#[global] Instance Path_eq_dec : EqDecision Path.
Proof. solve_decision. Defined.

#[global] Instance Path_countable : Countable Path.
Proof.
  refine (inj_countable' (λ p, (is_absolute p, parts p))
                         (λ x, mkPath x.1 x.2) _).
  by intros [].
Defined.

(** [base / other] *)
Definition joinpath (base other : Path) : Path :=
  if is_absolute other then other
  else mkPath (is_absolute base) (parts base ++ parts other).

(** [base / s] for a single component [s] *)
Definition joinname (base : Path) (s : string) : Path :=
  mkPath (is_absolute base) (parts base ++ [s]).

(** [p.name]: the final component, empty when there is none *)
Definition name (p : Path) : string := List.last (parts p) "".

Fixpoint strip_prefix (pre l : list string) : option (list string) :=
  match pre, l with
  | [], _ => Some l
  | x :: pre', y :: l' => if decide (x = y) then strip_prefix pre' l' else None
  | _ :: _, [] => None
  end.

(** [p.relative_to(base)]; [None] is the [ValueError] *)
Definition relative_to (p base : Path) : option Path :=
  if decide (is_absolute p = is_absolute base) then
    match strip_prefix (parts base) (parts p) with
    | Some rest => Some (mkPath false rest)
    | None => None
    end
  else None.

(** ** Records of the data model *)

(** [day] is the number [strftime('%Y%m%d')] prints, [tick] the time of
    day. *)
Record datetime := mkTime { day : N; tick : N }.

#[global] Instance datetime_eq_dec : EqDecision datetime.
Proof. solve_decision. Defined.

Definition isoformat (t : datetime) : string :=
  pretty (day t) +:+ "T" +:+ pretty (tick t).

Inductive Details :=
| DEmpty
| DWrite (write : bool)
| DSize (size : nat).

Record Event := mkEvent {
  ev_timestamp : datetime;
  ev_agent : string;
  ev_action : string;
  ev_file : Path;
  ev_details : Details
}.

Record FileMetadata := mkMeta {
  path : Path;
  state : FileState;
  locked_by : option AgentType;
  last_modified : datetime;
  checksum : option string;
  history : list Event
}.

(** [FileMetadata(path=p)] with the dataclass defaults *)
Definition new_metadata (now : datetime) (p : Path) : FileMetadata :=
  mkMeta p AVAILABLE None now None [].

Definition set_lock (st : FileState) (lb : option AgentType)
    (m : FileMetadata) : FileMetadata :=
  mkMeta (path m) st lb (last_modified m) (checksum m) (history m).

Definition set_state (st : FileState) (m : FileMetadata) : FileMetadata :=
  mkMeta (path m) st (locked_by m) (last_modified m) (checksum m) (history m).

Definition set_last_modified (t : datetime) (m : FileMetadata) : FileMetadata :=
  mkMeta (path m) (state m) (locked_by m) t (checksum m) (history m).

Definition add_history (e : Event) (m : FileMetadata) : FileMetadata :=
  mkMeta (path m) (state m) (locked_by m) (last_modified m) (checksum m)
         (history m ++ [e]).

Record Activity := mkActivity {
  last_active : option datetime;
  current_files : gset Path
}.

(** One entry of the ['files'] list of the snapshot *)
Record FileData := mkFileData {
  fd_path : Path;
  fd_state : string;
  fd_locked_by : option string;
  fd_last_modified : datetime;
  fd_checksum : option string;
  fd_history : list Event
}.

Record Snapshot := mkSnapshot {
  snap_timestamp : datetime;
  snap_files : list FileData
}.

(** Content of [.workspace_state.json]: unreadable JSON, or a snapshot *)
Inductive StateFile :=
| Corrupt
| Parsed (s : Snapshot).

Record Workspace := mkWorkspace {
  workspace_path : Path;
  file_metadata : gmap Path FileMetadata;
  agent_activity : AgentType → Activity;
  disk : gmap Path string;
  logs : gmap N (list Event);
  state_file : option StateFile
}.

Record Env := mkEnv {
  now : datetime;
  mutex_held : Path → bool;
  io_fault : Path → bool
}.

Definition with_metadata (f : gmap Path FileMetadata → gmap Path FileMetadata)
    (ws : Workspace) : Workspace :=
  mkWorkspace (workspace_path ws) (f (file_metadata ws)) (agent_activity ws)
              (disk ws) (logs ws) (state_file ws).

Definition with_activity (f : (AgentType → Activity) → AgentType → Activity)
    (ws : Workspace) : Workspace :=
  mkWorkspace (workspace_path ws) (file_metadata ws) (f (agent_activity ws))
              (disk ws) (logs ws) (state_file ws).

Definition with_disk (f : gmap Path string → gmap Path string)
    (ws : Workspace) : Workspace :=
  mkWorkspace (workspace_path ws) (file_metadata ws) (agent_activity ws)
              (f (disk ws)) (logs ws) (state_file ws).

Definition with_logs (f : gmap N (list Event) → gmap N (list Event))
    (ws : Workspace) : Workspace :=
  mkWorkspace (workspace_path ws) (file_metadata ws) (agent_activity ws)
              (disk ws) (f (logs ws)) (state_file ws).

Definition with_state_file (s : option StateFile) (ws : Workspace) : Workspace :=
  mkWorkspace (workspace_path ws) (file_metadata ws) (agent_activity ws)
              (disk ws) (logs ws) s.

Definition update_activity (a : AgentType) (f : Activity → Activity)
    (act : AgentType → Activity) : AgentType → Activity :=
  λ b, if decide (a = b) then f (act b) else act b.

(** ** The monad: state, and exceptions that keep the state *)

Inductive exn := Timeout | OSError | ValueError | KeyError.

Inductive outcome (A : Type) :=
| Ret (a : A)
| Raise (e : exn).
Arguments Ret {A} a.
Arguments Raise {A} e.

Definition M (A : Type) : Type := Workspace → outcome A * Workspace.

Definition ret {A} (a : A) : M A := λ ws, (Ret a, ws).

Definition raise {A} (e : exn) : M A := λ ws, (Raise e, ws).

Definition bind {A B} (m : M A) (k : A → M B) : M B :=
  λ ws, match m ws with
        | (Ret a, ws') => k a ws'
        | (Raise e, ws') => (Raise e, ws')
        end.

Notation "'let!' x := m 'in' k" := (bind m (λ x, k))
  (at level 10, x name, m at level 100, k at level 200).
Notation "m >>; k" := (bind m (λ _, k))
  (at level 100, k at level 200, right associativity).

Definition gets {A} (f : Workspace → A) : M A := λ ws, (Ret (f ws), ws).

Definition modify (f : Workspace → Workspace) : M unit := λ ws, (Ret tt, f ws).

(** [try: body except E: handler] for the exceptions selected by [sel] *)
Definition try_except {A} (sel : exn → bool) (body : M A) (handler : M A) : M A :=
  λ ws, match body ws with
        | (Ret a, ws') => (Ret a, ws')
        | (Raise e, ws') => if sel e then handler ws' else (Raise e, ws')
        end.

(** [try: body finally: final]; an exception of [final] replaces the
    outcome of [body] *)
Definition try_finally {A} (body : M A) (final : M unit) : M A :=
  λ ws, match body ws with
        | (r, ws') =>
            match final ws' with
            | (Ret _, ws'') => (r, ws'')
            | (Raise e, ws'') => (Raise e, ws'')
            end
        end.

Definition is_timeout (e : exn) : bool :=
  match e with Timeout => true | _ => false end.

Definition any_exception (e : exn) : bool := true.

Definition get_metadata (p : Path) : M FileMetadata :=
  λ ws, match file_metadata ws !! p with
        | Some m => (Ret m, ws)
        | None => (Raise KeyError, ws)
        end.

(** Final state and outcome of a computation *)
Definition exec {A} (m : M A) (ws : Workspace) : Workspace := (m ws).2.
Definition result {A} (m : M A) (ws : Workspace) : outcome A := (m ws).1.

(** ** The workspace manager *)

Definition tracked (fm : gmap Path FileMetadata) (p : Path) : bool :=
  bool_decide (is_Some (fm !! p)).

Definition exists_on (d : gmap Path string) (p : Path) : bool :=
  bool_decide (is_Some (d !! p)).

(** [self.dirs] *)
Definition dirs (wp : Path) (key : string) : option Path :=
  if decide (key = "shared") then Some (joinname wp "shared")
  else if decide (key = "claude") then Some (joinname wp "claude_workspace")
  else if decide (key = "gemini") then Some (joinname wp "gemini_workspace")
  else if decide (key = "tasks") then Some (joinname wp "tasks")
  else if decide (key = "findings") then Some (joinname wp "findings")
  else if decide (key = "logs") then Some (joinname wp "logs")
  else if decide (key = "context") then Some (joinname wp "context")
  else if decide (key = "sandbox") then Some (joinname wp "sandbox")
  else if decide (key = "history") then Some (joinname wp "history")
  else None.

Definition lock_dir (wp : Path) : Path := joinname wp ".locks".

(** The lock file [acquire_file] uses for [file_path] *)
Definition lock_path (wp file_path : Path) : Path :=
  joinname (lock_dir wp) (name file_path +:+ ".lock").

(** [lock.acquire()] with its timeout *)
Definition lock_acquire (env : Env) (lp : Path) : M unit :=
  if mutex_held env lp then raise Timeout else ret tt.

(** Appending a line to [events_<day>.jsonl] *)
Definition append_line (d : N) (e : Event)
    (l : gmap N (list Event)) : gmap N (list Event) :=
  <[d := (default [] (l !! d) ++ [e])%list]> l.

Definition _log_file_event (env : Env) (file_path : Path) (agent : AgentType)
    (action : string) (details : Details) : M unit :=
  let! wp := gets workspace_path in
  match relative_to file_path wp with
  | None => raise ValueError
  | Some rel =>
      let event :=
        mkEvent (now env) (AgentType_value agent) action rel details in
      let! fm := gets file_metadata in
      (if tracked fm file_path
       then modify (with_metadata (alter (add_history event) file_path))
       else ret tt) >>;
      modify (with_logs (append_line (day (now env)) event))
  end.

Definition acquire_file (env : Env) (file_path : Path) (agent : AgentType)
    (write : bool) : M bool :=
  let! wp := gets workspace_path in
  let abs_path := joinpath wp file_path in
  let lp := lock_path wp file_path in
  let! fm := gets file_metadata in
  (if tracked fm abs_path then ret tt
   else modify (with_metadata
                  (insert abs_path (new_metadata (now env) abs_path)))) >>;
  let! metadata := get_metadata abs_path in
  if decide (state metadata = LOCKED_WRITE ∧ locked_by metadata ≠ Some agent)
  then ret false
  else
    try_except is_timeout
      ((if write then
          lock_acquire env lp >>;
          modify (with_metadata
                    (alter (set_lock LOCKED_WRITE (Some agent)) abs_path))
        else if decide (state metadata ≠ LOCKED_WRITE) then
          modify (with_metadata
                    (alter (set_lock LOCKED_READ (Some agent)) abs_path))
        else ret tt) >>;
       modify (with_activity (update_activity agent (λ act,
         mkActivity (Some (now env)) ({[abs_path]} ∪ current_files act)))) >>;
       _log_file_event env abs_path agent "acquired" (DWrite write) >>;
       ret true)
      (ret false).

Definition release_file (env : Env) (file_path : Path) (agent : AgentType)
    : M unit :=
  let! wp := gets workspace_path in
  let abs_path := joinpath wp file_path in
  let! fm := gets file_metadata in
  match fm !! abs_path with
  | Some metadata =>
      if decide (locked_by metadata = Some agent) then
        modify (with_metadata (alter (set_lock AVAILABLE None) abs_path)) >>;
        modify (with_activity (update_activity agent (λ act,
          mkActivity (last_active act) (current_files act ∖ {[abs_path]})))) >>;
        _log_file_event env abs_path agent "released" DEmpty
      else ret tt
  | None => ret tt
  end.

(** [aiofiles.open(p, 'r')] followed by [read()] *)
Definition open_read (env : Env) (p : Path) : M string :=
  λ ws, if io_fault env p then (Raise OSError, ws)
        else match disk ws !! p with
             | Some content => (Ret content, ws)
             | None => (Raise OSError, ws)
             end.

(** [aiofiles.open(p, 'w')] followed by [write(content)] *)
Definition open_write (env : Env) (p : Path) (content : string) : M unit :=
  if io_fault env p then raise OSError
  else modify (with_disk (insert p content)).

Definition read_file (env : Env) (file_path : Path) (agent : AgentType)
    : M (option string) :=
  let! ok := acquire_file env file_path agent false in
  if negb ok then ret None
  else
    try_finally
      (let! wp := gets workspace_path in
       let abs_path := joinpath wp file_path in
       let! content := open_read env abs_path in
       _log_file_event env abs_path agent "read" DEmpty >>;
       ret (Some content))
      (release_file env file_path agent).

Definition write_file (env : Env) (file_path : Path) (content : string)
    (agent : AgentType) (backup : bool) : M bool :=
  let! ok := acquire_file env file_path agent true in
  if negb ok then ret false
  else
    try_finally
      (try_except any_exception
         (let! wp := gets workspace_path in
          let abs_path := joinpath wp file_path in
          let! d := gets disk in
          (if backup && exists_on d abs_path then
             let backup_path :=
               joinname (default wp (dirs wp "history"))
                        (name file_path +:+ "." +:+ isoformat (now env)) in
             let! old := open_read env abs_path in
             open_write env backup_path old
           else ret tt) >>;
          open_write env abs_path content >>;
          let! fm := gets file_metadata in
          (if tracked fm abs_path then
             modify (with_metadata
               (alter (λ m, set_state MODIFIED
                              (set_last_modified (now env) m)) abs_path))
           else ret tt) >>;
          _log_file_event env abs_path agent "wrote"
                          (DSize (String.length content)) >>;
          ret true)
         (ret false))
      (release_file env file_path agent).

(** *** Change watcher *)

Definition _handle_file_change (env : Env) (file_path : Path) : M unit :=
  let! fm := gets file_metadata in
  match fm !! file_path with
  | Some metadata =>
      modify (with_metadata
                (alter (set_last_modified (now env)) file_path)) >>;
      if decide (state metadata = LOCKED_WRITE)
      then modify (with_metadata (alter (set_state CONFLICT) file_path))
      else ret tt
  | None => ret tt
  end.

Definition _handle_file_created (env : Env) (file_path : Path) : M unit :=
  let! fm := gets file_metadata in
  if tracked fm file_path then ret tt
  else modify (with_metadata
                 (insert file_path (new_metadata (now env) file_path))).

(** *** Audit log query *)

(** [sorted(glob("events_*.jsonl"), reverse=True)]: partitions by
    descending day (the file names differ only in their eight digits). *)
Definition newer_first (x y : N * list Event) : Prop := (y.1 ≤ x.1)%N.

#[global] Instance newer_first_dec x y : Decision (newer_first x y).
Proof. unfold newer_first. apply _. Defined.

Definition log_files (l : gmap N (list Event)) : list (N * list Event) :=
  merge_sort newer_first (map_to_list l).

(** The loop over the lines of one partition: [inl] is the [return events]
    taken inside the loop, [inr] falls through to the next partition. *)
Fixpoint scan_lines (agent_value : string) (limit : Z) (lines : list Event)
    (events : list Event) : list Event + list Event :=
  match lines with
  | [] => inr events
  | event :: rest =>
      if decide (ev_agent event = agent_value) then
        let events' := (events ++ [event])%list in
        if decide (limit ≤ Z.of_nat (length events'))%Z then inl events'
        else scan_lines agent_value limit rest events'
      else scan_lines agent_value limit rest events
  end.

Fixpoint scan_files (agent_value : string) (limit : Z)
    (files : list (N * list Event)) (events : list Event) : list Event :=
  match files with
  | [] => events
  | log_file :: rest =>
      match scan_lines agent_value limit log_file.2 events with
      | inl returned => returned
      | inr events' => scan_files agent_value limit rest events'
      end
  end.

Definition recent_events (l : gmap N (list Event)) (agent : AgentType)
    (limit : Z) : list Event :=
  scan_files (AgentType_value agent) limit (take 3 (log_files l)) [].

Definition _get_recent_events (agent : AgentType) (limit : Z)
    : M (list Event) :=
  gets (λ ws, recent_events (logs ws) agent limit).

(** *** Agent view *)

Record FileInfo := mkFileInfo {
  fi_path : Path;
  fi_state : string;
  fi_last_modified : datetime
}.

Record AgentView := mkView {
  view_agent : string;
  workspace_root : Path;
  agent_dir : Path;
  shared_files : list FileInfo;
  locked_files : list FileInfo;
  recent_changes : list Event;
  current_context : string
}.

(** The shared context file, undecoded; ["{}"] when there is none *)
Definition _get_current_context : M string :=
  gets (λ ws,
    default "{}"
      (disk ws !! joinname (default (workspace_path ws)
                                    (dirs (workspace_path ws) "context"))
                           "shared_context.json")).

(** The loop over [file_metadata.items()], with the two lists it appends
    to; [None] is the [ValueError] of [relative_to]. *)
Fixpoint view_loop (wp : Path) (agent : AgentType)
    (items : list (Path * FileMetadata)) (shared locked : list FileInfo)
    : option (list FileInfo * list FileInfo) :=
  match items with
  | [] => Some (shared, locked)
  | (p, metadata) :: rest =>
      match relative_to p wp with
      | None => None
      | Some rel =>
          let file_info :=
            mkFileInfo rel (FileState_value (state metadata))
                       (last_modified metadata) in
          if decide (locked_by metadata = Some agent) then
            view_loop wp agent rest shared (locked ++ [file_info])
          else if decide (state metadata = AVAILABLE) then
            view_loop wp agent rest (shared ++ [file_info]) locked
          else view_loop wp agent rest shared locked
      end
  end.

Definition get_agent_view (agent : AgentType) : M AgentView :=
  let! wp := gets workspace_path in
  let! context := _get_current_context in
  let! fm := gets file_metadata in
  match view_loop wp agent (map_to_list fm) [] [] with
  | None => raise ValueError
  | Some (shared, locked) =>
      let! events := _get_recent_events agent 10 in
      ret (mkView (AgentType_value agent) wp
                  (default (joinname wp "shared")
                           (dirs wp (AgentType_value agent)))
                  shared locked events context)
  end.

(** *** Snapshot and recovery *)

(** [l[-n:]] *)
Definition last_n {A} (n : nat) (l : list A) : list A :=
  drop (length l - n) l.

Definition file_data_of (item : Path * FileMetadata) : FileData :=
  mkFileData item.1
             (FileState_value (state item.2))
             (AgentType_value <$> locked_by item.2)
             (last_modified item.2)
             (checksum item.2)
             (last_n 10 (history item.2)).

Definition save_workspace_state (env : Env) : M unit :=
  let! fm := gets file_metadata in
  let state := mkSnapshot (now env) (file_data_of <$> map_to_list fm) in
  modify (with_state_file (Some (Parsed state))).

(** [AgentType(v) if v else None]; the outer [None] is the [ValueError] *)
Definition parse_locked_by (v : option string) : option (option AgentType) :=
  match v with
  | None => Some None
  | Some s =>
      if decide (s = "") then Some None
      else match AgentType_of_value s with
           | Some a => Some (Some a)
           | None => None
           end
  end.

(** The restoring loop; an exception abandons it and keeps what was
    restored so far (the [except Exception] around it only logs). *)
Fixpoint restore_files (d : gmap Path string) (files : list FileData)
    (fm : gmap Path FileMetadata) : gmap Path FileMetadata :=
  match files with
  | [] => fm
  | file_data :: rest =>
      let p := fd_path file_data in
      if exists_on d p then
        match FileState_of_value (fd_state file_data),
              parse_locked_by (fd_locked_by file_data) with
        | Some st, Some lb =>
            restore_files d rest
              (<[p := mkMeta p st lb (fd_last_modified file_data)
                             (fd_checksum file_data)
                             (fd_history file_data)]> fm)
        | _, _ => fm
        end
      else restore_files d rest fm
  end.

Definition _initialize_workspace_state : M unit :=
  let! sf := gets state_file in
  match sf with
  | Some (Parsed state) =>
      let! d := gets disk in
      modify (with_metadata (restore_files d (snap_files state)))
  | Some Corrupt => ret tt
  | None => ret tt
  end.

Definition initial_activity : AgentType → Activity :=
  λ _, mkActivity None ∅.

(** [WorkspaceManager(workspace_path)] over a file system holding [d], the
    event log [l] and the state file [sf] *)
Definition WorkspaceManager_init (wp : Path) (d : gmap Path string)
    (l : gmap N (list Event)) (sf : option StateFile) : Workspace :=
  exec _initialize_workspace_state
       (mkWorkspace wp ∅ initial_activity d l sf).

(** ** Observations used by the statements *)

Definition state_at (ws : Workspace) (p : Path) : option FileState :=
  state <$> file_metadata ws !! p.

Definition holder_at (ws : Workspace) (p : Path) : option (option AgentType) :=
  locked_by <$> file_metadata ws !! p.

(** Agent [a] holds [LOCKED_WRITE] on [p] *)
Definition holds_write (ws : Workspace) (p : Path) (a : AgentType) : Prop :=
  state_at ws p = Some LOCKED_WRITE ∧ holder_at ws p = Some (Some a).

(** Calls an agent can make on the lock manager *)
Inductive Call :=
| CallAcquire (env : Env) (file_path : Path) (agent : AgentType) (write : bool)
| CallRelease (env : Env) (file_path : Path) (agent : AgentType)
| CallRead (env : Env) (file_path : Path) (agent : AgentType)
| CallWrite (env : Env) (file_path : Path) (content : string)
            (agent : AgentType) (backup : bool).

Definition call_agent (c : Call) : AgentType :=
  match c with
  | CallAcquire _ _ a _ | CallRelease _ _ a | CallRead _ _ a
  | CallWrite _ _ _ a _ => a
  end.

Definition run_call (c : Call) (ws : Workspace) : Workspace :=
  match c with
  | CallAcquire env fp a w => exec (acquire_file env fp a w) ws
  | CallRelease env fp a => exec (release_file env fp a) ws
  | CallRead env fp a => exec (read_file env fp a) ws
  | CallWrite env fp content a backup =>
      exec (write_file env fp content a backup) ws
  end.

Fixpoint run_calls (cs : list Call) (ws : Workspace) : Workspace :=
  match cs with
  | [] => ws
  | c :: cs' => run_calls cs' (run_call c ws)
  end.

(** A computation keeps a property of the workspace, whatever it returns
    or raises *)
Definition preserves (P : Workspace → Prop) {A} (m : M A) : Prop :=
  ∀ ws, P ws → P (exec m ws).

(** The workspace root and the record of one path *)
Definition framed (wp p : Path) (v : option FileMetadata) (ws : Workspace)
    : Prop :=
  workspace_path ws = wp ∧ file_metadata ws !! p = v.

(** The workspace root and the file contents *)
Definition fs_inv (wp : Path) (d : gmap Path string) (ws : Workspace) : Prop :=
  workspace_path ws = wp ∧ disk ws = d.

(** The event [acquire_file] logs for a workspace-relative [fp] *)
Definition acquired_event (env : Env) (agent : AgentType) (fp : Path)
    (w : bool) : Event :=
  mkEvent (now env) (AgentType_value agent) "acquired"
          (mkPath false (parts fp)) (DWrite w).

(** The lines of a partition that belong to an agent, in file order *)
Definition matching (agent_value : string) (lines : list Event) : list Event :=
  filter (λ e, ev_agent e = agent_value) lines.

(** The record [_initialize_workspace_state] rebuilds from the entry that
    [save_workspace_state] wrote for the record [m] under the key [p] *)
Definition restored (p : Path) (m : FileMetadata) : FileMetadata :=
  mkMeta p (state m) (locked_by m) (last_modified m) (checksum m)
         (last_n 10 (history m)).

(** *** Reachable workspaces

    One step of the manager: a call of an agent, a notification of the
    watcher, or saving the state. *)
Inductive Step :=
| StepCall (c : Call)
| StepModified (env : Env) (file_path : Path)
| StepCreated (env : Env) (file_path : Path)
| StepSave (env : Env).

Definition run_step (s : Step) (ws : Workspace) : Workspace :=
  match s with
  | StepCall c => run_call c ws
  | StepModified env p => exec (_handle_file_change env p) ws
  | StepCreated env p => exec (_handle_file_created env p) ws
  | StepSave env => exec (save_workspace_state env) ws
  end.

(** The workspaces a manager started without a state file can be in *)
Inductive reachable : Workspace → Prop :=
| reachable_init wp d l : reachable (WorkspaceManager_init wp d l None)
| reachable_step s ws : reachable ws → reachable (run_step s ws).

Definition unheld_when_available (m : FileMetadata) : Prop :=
  state m = AVAILABLE → locked_by m = None.

Definition available_unheld (ws : Workspace) : Prop :=
  ∀ p m, file_metadata ws !! p = Some m → unheld_when_available m.

(** The entry [get_agent_view] builds for one item of [file_metadata] *)
Definition file_info_of (wp : Path) (item : Path * FileMetadata)
    : option FileInfo :=
  (λ rel, mkFileInfo rel (FileState_value (state item.2))
                     (last_modified item.2))
    <$> relative_to item.1 wp.

Definition is_locked_by (a : AgentType) (item : Path * FileMetadata) : Prop :=
  locked_by item.2 = Some a.

Definition is_shared_for (a : AgentType) (item : Path * FileMetadata) : Prop :=
  locked_by item.2 ≠ Some a ∧ state item.2 = AVAILABLE.

#[global] Instance is_locked_by_dec a item : Decision (is_locked_by a item).
Proof. unfold is_locked_by. apply _. Defined.

#[global] Instance is_shared_for_dec a item : Decision (is_shared_for a item).
Proof. unfold is_shared_for. apply _. Defined.

(** ** Closed forms and observations of the further properties *)

(** The workspace [acquire_file] works on: the record of the path is the
    one it has, or the default record the call creates first *)
Definition ensure_tracked (env : Env) (p : Path) (ws : Workspace) : Workspace :=
  if tracked (file_metadata ws) p then ws
  else with_metadata (insert p (new_metadata (now env) p)) ws.

(** What [_log_file_event] does to the workspace when it logs the event
    [e] for the path [p] *)
Definition logged (env : Env) (p : Path) (e : Event) (ws : Workspace)
    : Workspace :=
  with_logs (append_line (day (now env)) e)
    (if tracked (file_metadata ws) p
     then with_metadata (alter (add_history e) p) ws else ws).

(** The event logged for a workspace-relative [fp] *)
Definition event_of (env : Env) (agent : AgentType) (action : string)
    (fp : Path) (details : Details) : Event :=
  mkEvent (now env) (AgentType_value agent) action (mkPath false (parts fp))
          details.

Definition last_modified_at (ws : Workspace) (p : Path) : option datetime :=
  last_modified <$> file_metadata ws !! p.

Definition history_at (ws : Workspace) (p : Path) : option (list Event) :=
  history <$> file_metadata ws !! p.

(** The backup file [write_file] creates *)
Definition backup_path (env : Env) (wp fp : Path) : Path :=
  joinname (joinname wp "history") (name fp +:+ "." +:+ isoformat (now env)).

(** What [acquire_file] and [release_file] do to the caller's activity *)
Definition acquired_activity (env : Env) (p : Path) (act : Activity) : Activity :=
  mkActivity (Some (now env)) ({[p]} ∪ current_files act).

Definition released_activity (p : Path) (act : Activity) : Activity :=
  mkActivity (last_active act) (current_files act ∖ {[p]}).

(** What the holder's [release_file] does to the workspace *)
Definition lock_released (env : Env) (fp : Path) (agent : AgentType)
    (ws : Workspace) : Workspace :=
  let p := joinpath (workspace_path ws) fp in
  logged env p (event_of env agent "released" fp DEmpty)
    (with_activity (update_activity agent (released_activity p))
       (with_metadata (alter (set_lock AVAILABLE None) p) ws)).

(** What the body of [write_file] does to the workspace when nothing
    fails *)
Definition content_written (env : Env) (fp : Path) (content : string)
    (agent : AgentType) (backup : bool) (ws : Workspace) : Workspace :=
  let p := joinpath (workspace_path ws) fp in
  logged env p (event_of env agent "wrote" fp (DSize (String.length content)))
    (with_metadata
       (alter (λ m, set_state MODIFIED (set_last_modified (now env) m)) p)
       (with_disk (insert p content)
          (match (if backup then disk ws !! p else None) with
           | Some old =>
               with_disk (insert (backup_path env (workspace_path ws) fp) old)
                         ws
           | None => ws
           end))).

(** The events [evs] were appended, in this order, to today's partition of
    the audit log and to the history of the path [p] (which is tracked
    afterwards) *)
Definition appended (env : Env) (p : Path) (evs : list Event)
    (ws ws' : Workspace) : Prop :=
  logs ws' = <[day (now env) :=
                 (default [] (logs ws !! day (now env)) ++ evs)%list]> (logs ws) ∧
  history_at ws' p = Some (default [] (history_at ws p) ++ evs)%list.

(** The files after a successful [write_file] *)
Definition written_disk (env : Env) (wp fp : Path) (content : string)
    (backup : bool) (d : gmap Path string) : gmap Path string :=
  <[joinpath wp fp := content]>
    (match (if backup then d !! joinpath wp fp else None) with
     | Some old => <[backup_path env wp fp := old]> d
     | None => d
     end).

Definition call_path (c : Call) : Path :=
  match c with
  | CallAcquire _ fp _ _ | CallRelease _ fp _ | CallRead _ fp _
  | CallWrite _ fp _ _ _ => fp
  end.

(** The key of [file_metadata] a step works on *)
Definition step_target (wp : Path) (s : Step) : option Path :=
  match s with
  | StepCall c => Some (joinpath wp (call_path c))
  | StepModified _ p | StepCreated _ p => Some p
  | StepSave _ => None
  end.

(** The files a step may write: none, except for [write_file] *)
Definition step_writes (wp : Path) (s : Step) : list Path :=
  match s with
  | StepCall (CallWrite env fp _ _ backup) =>
      if backup then [joinpath wp fp; backup_path env wp fp]
      else [joinpath wp fp]
  | _ => []
  end.

Fixpoint run_steps (ss : list Step) (ws : Workspace) : Workspace :=
  match ss with
  | [] => ws
  | s :: ss' => run_steps ss' (run_step s ws)
  end.

(** A later version of a record: same [path] and [checksum], a history
    that was only appended to *)
Definition record_extends (m m' : FileMetadata) : Prop :=
  path m' = path m ∧ checksum m' = checksum m ∧
  history m `prefix_of` history m'.

(** A later version of a workspace: same root, log partitions and records
    that were only added or appended to *)
Definition extends (ws ws' : Workspace) : Prop :=
  workspace_path ws' = workspace_path ws ∧
  (∀ d, default [] (logs ws !! d) `prefix_of` default [] (logs ws' !! d)) ∧
  (∀ p m, file_metadata ws !! p = Some m →
     ∃ m', file_metadata ws' !! p = Some m' ∧ record_extends m m').

(** The record stored under the key [p], as the manager leaves it between
    two steps *)
Definition well_formed (p : Path) (m : FileMetadata) : Prop :=
  path m = p ∧ checksum m = None ∧ state m ≠ MODIFIED ∧
  (locked_by m = None ↔ state m = AVAILABLE).

Definition well_formed_records (ws : Workspace) : Prop :=
  ∀ p m, file_metadata ws !! p = Some m → well_formed p m.

(** Inside [write_file], between taking and releasing the lock on [p] *)
Definition writing (wp p : Path) (a : AgentType) (ws : Workspace) : Prop :=
  workspace_path ws = wp ∧
  (∃ m, file_metadata ws !! p = Some m ∧ locked_by m = Some a ∧
        path m = p ∧ checksum m = None) ∧
  (∀ q m, q ≠ p → file_metadata ws !! q = Some m → well_formed q m).

(** The workspace root, and the content of every file outside [W] *)
Definition disk_outside (wp : Path) (W : list Path) (d : gmap Path string)
    (ws : Workspace) : Prop :=
  workspace_path ws = wp ∧ ∀ q, q ∉ W → disk ws !! q = d !! q.

(** The workspace root and the activity record of one agent *)
Definition activity_of (wp : Path) (b : AgentType) (act : Activity)
    (ws : Workspace) : Prop :=
  workspace_path ws = wp ∧ agent_activity ws b = act.

(** Every lock is listed in the [current_files] of its holder *)
Definition holders_listed (ws : Workspace) : Prop :=
  ∀ p a, holder_at ws p = Some (Some a) →
         p ∈ current_files (agent_activity ws a).

(** The paths whose lock an agent holds *)
Definition held_by (ws : Workspace) (a : AgentType) : gset Path :=
  dom (filter (λ item, locked_by item.2 = Some a) (file_metadata ws)).

(** The agent's events of the partitions the query opens, in reading order *)
Definition candidate_events (l : gmap N (list Event)) (agent : AgentType)
    : list Event :=
  concat ((λ f, matching (AgentType_value agent) f.2) <$> take 3 (log_files l)).

(** The days of the log that are newer than [d] *)
Definition newer_days (l : gmap N (list Event)) (d : N) : gset N :=
  filter (λ d', (d < d')%N) (dom l).

(** An entry of the snapshot that [_initialize_workspace_state] cannot
    rebuild: [FileState(...)] or [AgentType(...)] raises *)
Definition invalid_entry (fd : FileData) : Prop :=
  FileState_of_value (fd_state fd) = None ∨
  parse_locked_by (fd_locked_by fd) = None.

(** *** The workspace status of the server

    [MultiAgentMCPServer._handle_workspace_status] of [core/mcp_server.py],
    the caller of [get_agent_view].  Its result, without the constant
    ['success'] and the ['task_id'] it echoes: *)
Record AgentStatus := mkAgentStatus {
  status_last_active : option string;
  active_files : nat
}.

Record WorkspaceStatus := mkStatus {
  status_workspace_root : Path;
  status_agent_activity : list (string * AgentStatus);
  status_files : option (list FileInfo);
  status_recent_changes : option (list Event)
}.

Definition agent_status (act : Activity) : AgentStatus :=
  mkAgentStatus (isoformat <$> last_active act) (size (current_files act)).

Definition _handle_workspace_status (include_files include_changes : bool)
    : M WorkspaceStatus :=
  let! agent_view := get_agent_view CLAUDE in
  let! wp := gets workspace_path in
  let! activity := gets agent_activity in
  ret (mkStatus wp
         ((λ a, (AgentType_value a, agent_status (activity a)))
            <$> [CLAUDE; GEMINI; HUMAN])
         (if include_files
          then Some (shared_files agent_view ++ locked_files agent_view)%list
          else None)
         (if include_changes then Some (recent_changes agent_view) else None)).

(** ** Concrete workspaces *)

Definition root : Path := mkPath true ["workspace"].
Definition notes : Path := mkPath false ["notes.md"].
Definition todo : Path := mkPath false ["todo.md"].
Definition docs_readme : Path := mkPath false ["docs"; "README.md"].
Definition src_readme : Path := mkPath false ["src"; "README.md"].

(** The environment at time [t] of 1 January 2024; [held] says whether
    every lock file is held by another process, [fault] whether opening
    any file fails. *)
Definition env_at (t : N) (held fault : bool) : Env :=
  mkEnv (mkTime 20240101 t) (λ _, held) (λ _, fault).

Definition env_free : Env := env_at 1 false false.
Definition env_busy : Env := env_at 2 true false.
Definition env_fault : Env := env_at 3 false true.

(** A fresh manager over an empty workspace directory *)
Definition ws_fresh : Workspace := WorkspaceManager_init root ∅ ∅ None.

(** CLAUDE holds the write lock on [notes.md] *)
Definition ws_writer : Workspace :=
  exec (acquire_file env_free notes CLAUDE true) ws_fresh.

(** CLAUDE holds a read lock on [notes.md] *)
Definition ws_reader : Workspace :=
  exec (acquire_file env_free notes CLAUDE false) ws_fresh.

(** [notes.md] was modified on disk while CLAUDE held the write lock *)
Definition ws_conflict : Workspace :=
  exec (_handle_file_change (env_at 4 false false) (joinpath root notes))
       ws_writer.

(** CLAUDE holds the write lock on [notes.md]; the watcher has seen
    [todo.md] appear *)
Definition ws_two_files : Workspace :=
  exec (_handle_file_created (env_at 5 false false) (joinpath root todo))
       ws_writer.

(** Calls by agents other than CLAUDE *)
Definition other_calls : list Call :=
  [ CallAcquire env_free notes GEMINI true;
    CallRead env_free notes HUMAN;
    CallRelease env_free notes GEMINI;
    CallWrite env_free todo "buy milk" GEMINI true;
    CallAcquire env_free notes HUMAN false ].

(** Five acquire/release rounds by CLAUDE on [notes.md], at times 1 to 10:
    ten audit events of that agent in one day partition *)
Definition ten_calls : list Call :=
  [ CallAcquire (env_at 1 false false) notes CLAUDE false;
    CallRelease (env_at 2 false false) notes CLAUDE;
    CallAcquire (env_at 3 false false) notes CLAUDE false;
    CallRelease (env_at 4 false false) notes CLAUDE;
    CallAcquire (env_at 5 false false) notes CLAUDE false;
    CallRelease (env_at 6 false false) notes CLAUDE;
    CallAcquire (env_at 7 false false) notes CLAUDE false;
    CallRelease (env_at 8 false false) notes CLAUDE;
    CallAcquire (env_at 9 false false) notes CLAUDE false;
    CallRelease (env_at 10 false false) notes CLAUDE ].

Definition ws_ten : Workspace := run_calls ten_calls ws_fresh.

Definition claude_event (t : N) (action : string) (details : Details) : Event :=
  mkEvent (mkTime 20240101 t) "claude" action notes details.

Definition ten_events : list Event :=
  [ claude_event 1 "acquired" (DWrite false);
    claude_event 2 "released" DEmpty;
    claude_event 3 "acquired" (DWrite false);
    claude_event 4 "released" DEmpty;
    claude_event 5 "acquired" (DWrite false);
    claude_event 6 "released" DEmpty;
    claude_event 7 "acquired" (DWrite false);
    claude_event 8 "released" DEmpty;
    claude_event 9 "acquired" (DWrite false);
    claude_event 10 "released" DEmpty ].

(** The view [get_agent_view] returns to GEMINI in [ws_two_files] *)
Definition view_gemini : AgentView :=
  mkView "gemini" root (joinname root "gemini_workspace")
         [ mkFileInfo todo "available" (mkTime 20240101 5) ]
         [] [] "{}".

(** The view [get_agent_view] returns to CLAUDE in [ws_two_files] *)
Definition view_two_files : AgentView :=
  mkView "claude" root (joinname root "claude_workspace")
         [ mkFileInfo todo "available" (mkTime 20240101 5) ]
         [ mkFileInfo notes "locked_write" (mkTime 20240101 1) ]
         [ claude_event 1 "acquired" (DWrite true) ]
         "{}".

(** An absolute path outside the workspace *)
Definition outside : Path := mkPath true ["etc"; "passwd"].

(** CLAUDE has written [notes.md] *)
Definition ws_written : Workspace :=
  exec (write_file env_free notes "hello" CLAUDE true) ws_fresh.

(** CLAUDE has asked for a read lock on the path outside the workspace *)
Definition ws_stranded : Workspace :=
  exec (acquire_file env_free outside CLAUDE false) ws_fresh.

(** The records of [notes.md] and [todo.md] in [ws_two_files] *)
Definition notes_record : FileMetadata :=
  mkMeta (joinpath root notes) LOCKED_WRITE (Some CLAUDE) (mkTime 20240101 1)
         None [claude_event 1 "acquired" (DWrite true)].

Definition todo_created : FileMetadata :=
  new_metadata (mkTime 20240101 5) (joinpath root todo).

(** The status the server reports in [ws_two_files] *)
Definition status_two_files : WorkspaceStatus :=
  mkStatus root
    [ ("claude", mkAgentStatus (Some "20240101T1") 1);
      ("gemini", mkAgentStatus None 0);
      ("human", mkAgentStatus None 0) ]
    (Some [ mkFileInfo todo "available" (mkTime 20240101 5);
            mkFileInfo notes "locked_write" (mkTime 20240101 1) ])
    (Some [ claude_event 1 "acquired" (DWrite true) ]).

(** Entries of a snapshot: two that can be restored, one with a state that
    is no value of [FileState], one whose file is gone *)
Definition notes_entry : FileData :=
  mkFileData (joinpath root notes) "available" None (mkTime 20240101 1)
             None [].

Definition todo_entry : FileData :=
  mkFileData (joinpath root todo) "locked_read" (Some "gemini")
             (mkTime 20240101 2) None [].

Definition bad_entry : FileData :=
  mkFileData (joinpath root docs_readme) "locked" None (mkTime 20240101 3)
             None [].

Definition gone_entry : FileData :=
  mkFileData (joinpath root src_readme) "available" None (mkTime 20240101 4)
             None [].

(** The record recovered from [todo_entry] *)
Definition todo_record : FileMetadata :=
  mkMeta (joinpath root todo) LOCKED_READ (Some GEMINI) (mkTime 20240101 2)
         None [].

(** Files of the workspace: all but [src/README.md] *)
Definition disk_three : gmap Path string :=
  {[ joinpath root notes := "n";
     joinpath root todo := "t";
     joinpath root docs_readme := "d" ]}.

(** * Properties *)

(** ** The embedding on concrete inputs *)

(** The end-to-end scenario: A takes the exclusive lock, B is refused, A
    releases, B retries and succeeds. *)
Example exclusive_lock_scenario :
  result (acquire_file env_free notes CLAUDE true) ws_fresh = Ret true ∧
  result (acquire_file env_free notes GEMINI true) ws_writer = Ret false ∧
  result (acquire_file env_free notes GEMINI true)
         (exec (release_file env_free notes CLAUDE) ws_writer) = Ret true.
Proof. split_and!; vm_compute; reflexivity. Qed.

(** A mediated write reaches the disk and leaves the path available. *)
Example write_then_read :
  result (read_file env_free notes GEMINI)
         (exec (write_file env_free notes "hello" CLAUDE true) ws_fresh)
    = Ret (Some "hello") ∧
  state_at (exec (write_file env_free notes "hello" CLAUDE true) ws_fresh)
           (joinpath root notes) = Some AVAILABLE.
Proof. split; vm_compute; reflexivity. Qed.

(** A second write keeps a backup of the first content in the history
    directory, named after the file and the time of the write. *)
Example write_keeps_backup :
  disk (exec (write_file (env_at 7 false false) notes "second" CLAUDE true)
          (exec (write_file env_free notes "first" CLAUDE true) ws_fresh))
    !! mkPath true ["workspace"; "history"; "notes.md.20240101T7"]
  = Some "first".
Proof. vm_compute. reflexivity. Qed.

(** An absolute path outside the workspace: the lock is taken, then
    logging the acquisition raises [ValueError], which is not caught. *)
Example acquire_outside_workspace :
  result (acquire_file env_free (mkPath true ["etc"; "passwd"]) CLAUDE false)
         ws_fresh = Raise ValueError ∧
  state_at (exec (acquire_file env_free (mkPath true ["etc"; "passwd"])
                               CLAUDE false) ws_fresh)
           (mkPath true ["etc"; "passwd"]) = Some LOCKED_READ.
Proof. split; vm_compute; reflexivity. Qed.

(** Partitions are read newest day first. *)
Example log_files_newest_first :
  (log_files {[ 20240101%N := [claude_event 1 "read" DEmpty];
                20240103%N := [claude_event 3 "read" DEmpty];
                20231231%N := [claude_event 0 "read" DEmpty];
                20240102%N := [claude_event 2 "read" DEmpty] ]}).*1
  = [20240103; 20240102; 20240101; 20231231]%N.
Proof. vm_compute. reflexivity. Qed.

Example view_of_claude :
  result (get_agent_view CLAUDE) ws_two_files = Ret view_two_files.
Proof. vm_compute. reflexivity. Qed.

Example view_of_gemini :
  result (get_agent_view GEMINI) ws_two_files = Ret view_gemini.
Proof. vm_compute. reflexivity. Qed.

(** ** Running the monad *)

Ltac unfold_monad :=
  unfold bind, ret, raise, gets, modify, try_except, try_finally,
         get_metadata, lock_acquire, open_read, open_write, exec, result in *.

Lemma run_pair {A} (m : M A) ws : m ws = (result m ws, exec m ws).
Proof. unfold result, exec. by destruct (m ws). Qed.

Lemma bind_gets {A B} (f : Workspace → A) (k : A → M B) ws :
  bind (gets f) k ws = k (f ws) ws.
Proof. done. Qed.

Lemma bind_returns {A B} (m : M A) (k : A → M B) ws a ws' :
  m ws = (Ret a, ws') → bind m k ws = k a ws'.
Proof. intros H. unfold bind. by rewrite H. Qed.

Lemma bind_raises {A B} (m : M A) (k : A → M B) ws e ws' :
  m ws = (Raise e, ws') → bind m k ws = (Raise e, ws').
Proof. intros H. unfold bind. by rewrite H. Qed.

Lemma try_finally_runs {A} (body : M A) final ws r ws' ws'' :
  body ws = (r, ws') → final ws' = (Ret tt, ws'') →
  try_finally body final ws = (r, ws'').
Proof. intros Hb Hf. unfold try_finally. by rewrite Hb, Hf. Qed.

Lemma try_except_catches {A} sel (body handler : M A) ws e ws' :
  body ws = (Raise e, ws') → sel e = true →
  try_except sel body handler ws = handler ws'.
Proof. intros Hb Hs. unfold try_except. by rewrite Hb, Hs. Qed.

(** ** Preservation of a property through the combinators *)

Section Preservation.
Context (P : Workspace → Prop).

Lemma preserves_ret {A} (a : A) : preserves P (ret a).
Proof. by intros ws. Qed.

Lemma preserves_raise {A} e : preserves P (@raise A e).
Proof. by intros ws. Qed.

Lemma preserves_gets {A} (f : Workspace → A) : preserves P (gets f).
Proof. by intros ws. Qed.

Lemma preserves_get_metadata p : preserves P (get_metadata p).
Proof. intros ws H. unfold exec, get_metadata. by case_match. Qed.

Lemma preserves_modify f : (∀ ws, P ws → P (f ws)) → preserves P (modify f).
Proof. intros Hf ws H. by apply Hf. Qed.

Lemma preserves_bind {A B} (m : M A) (k : A → M B) :
  preserves P m → (∀ a, preserves P (k a)) → preserves P (bind m k).
Proof.
  intros Hm Hk ws H. specialize (Hm ws H). unfold exec, bind in *.
  destruct (m ws) as [[a|e] ws']; simpl in *; [by apply Hk | done].
Qed.

(** A value read from the state may be used under the property *)
Lemma preserves_bind_gets {A B} (f : Workspace → A) (k : A → M B) :
  (∀ ws0, P ws0 → preserves P (k (f ws0))) → preserves P (bind (gets f) k).
Proof. intros Hk ws H. unfold exec, bind, gets. by apply Hk. Qed.

Lemma preserves_try_except {A} sel (body handler : M A) :
  preserves P body → preserves P handler →
  preserves P (try_except sel body handler).
Proof.
  intros Hb Hh ws H. specialize (Hb ws H). unfold exec, try_except in *.
  destruct (body ws) as [[a|e] ws']; simpl in *; [done|].
  destruct (sel e); [by apply Hh | done].
Qed.

Lemma preserves_try_finally {A} (body : M A) final :
  preserves P body → preserves P final →
  preserves P (try_finally body final).
Proof.
  intros Hb Hf ws H. specialize (Hb ws H). unfold exec, try_finally in *.
  destruct (body ws) as [r ws']; simpl in *.
  specialize (Hf ws' Hb). unfold exec in Hf.
  by destruct (final ws') as [[?|?] ?].
Qed.

Lemma preserves_if {A} (b : bool) (m1 m2 : M A) :
  preserves P m1 → preserves P m2 → preserves P (if b then m1 else m2).
Proof. by destruct b. Qed.

Lemma preserves_decide {A} (Q : Prop) `{!Decision Q} (m1 m2 : M A) :
  preserves P m1 → preserves P m2 →
  preserves P (if decide Q then m1 else m2).
Proof. by destruct (decide Q). Qed.

End Preservation.

Create HintDb frame.

Ltac preserve_step :=
  first
    [ apply preserves_ret | apply preserves_raise | apply preserves_gets
    | apply preserves_get_metadata
    | apply preserves_try_except | apply preserves_try_finally
    | apply preserves_if | apply preserves_decide
    | apply preserves_bind; [|intros ?] ].

Ltac frame := repeat first [ solve [auto with frame] | preserve_step ].

(** ** Frame: an operation on one path leaves the other records alone *)

Section Frame.
Context (wp p : Path) (v : option FileMetadata).

Lemma keeps_alter f q :
  q ≠ p → preserves (framed wp p v) (modify (with_metadata (alter f q))).
Proof.
  intros Hq. apply preserves_modify. intros ws [? ?]. split; [done|].
  simpl. by rewrite lookup_alter_ne.
Qed.

Lemma keeps_insert q x :
  q ≠ p → preserves (framed wp p v) (modify (with_metadata (insert q x))).
Proof.
  intros Hq. apply preserves_modify. intros ws [? ?]. split; [done|].
  simpl. by rewrite lookup_insert_ne.
Qed.

Lemma keeps_activity f : preserves (framed wp p v) (modify (with_activity f)).
Proof. apply preserves_modify. by intros ws [? ?]. Qed.

Lemma keeps_logs f : preserves (framed wp p v) (modify (with_logs f)).
Proof. apply preserves_modify. by intros ws [? ?]. Qed.

Lemma keeps_disk f : preserves (framed wp p v) (modify (with_disk f)).
Proof. apply preserves_modify. by intros ws [? ?]. Qed.

Lemma keeps_lock_acquire env lp : preserves (framed wp p v) (lock_acquire env lp).
Proof. unfold lock_acquire. repeat preserve_step. Qed.

Lemma keeps_open_read env q : preserves (framed wp p v) (open_read env q).
Proof. intros ws H. unfold exec, open_read. by repeat case_match. Qed.

Lemma keeps_open_write env q c :
  preserves (framed wp p v) (open_write env q c).
Proof.
  unfold open_write. preserve_step; [preserve_step | apply keeps_disk].
Qed.

#[local] Hint Resolve keeps_alter keeps_insert keeps_activity keeps_logs
  keeps_disk keeps_lock_acquire keeps_open_read keeps_open_write : frame.

Lemma keeps_log_file_event env q agent action details :
  q ≠ p →
  preserves (framed wp p v) (_log_file_event env q agent action details).
Proof.
  intros Hq. unfold _log_file_event.
  apply preserves_bind_gets. intros ws0 _.
  case_match; frame.
Qed.

#[local] Hint Resolve keeps_log_file_event : frame.

Lemma keeps_acquire_file env fp agent w :
  joinpath wp fp ≠ p →
  preserves (framed wp p v) (acquire_file env fp agent w).
Proof.
  intros Hq. unfold acquire_file.
  apply preserves_bind_gets. intros ws0 [Hwp _]. rewrite Hwp.
  frame.
Qed.

Lemma keeps_release_file env fp agent :
  joinpath wp fp ≠ p →
  preserves (framed wp p v) (release_file env fp agent).
Proof.
  intros Hq. unfold release_file.
  apply preserves_bind_gets. intros ws0 [Hwp _]. rewrite Hwp.
  preserve_step; [preserve_step|]. case_match; frame.
Qed.

#[local] Hint Resolve keeps_acquire_file keeps_release_file : frame.

Lemma keeps_read_file env fp agent :
  joinpath wp fp ≠ p →
  preserves (framed wp p v) (read_file env fp agent).
Proof.
  intros Hq. unfold read_file.
  preserve_step; [frame|]. preserve_step; [frame|]. preserve_step; [|frame].
  apply preserves_bind_gets. intros ws0 [Hwp _]. rewrite Hwp.
  frame.
Qed.

Lemma keeps_write_file env fp content agent backup :
  joinpath wp fp ≠ p →
  preserves (framed wp p v) (write_file env fp content agent backup).
Proof.
  intros Hq. unfold write_file.
  preserve_step; [frame|]. preserve_step; [frame|]. preserve_step; [|frame].
  preserve_step; [|frame].
  apply preserves_bind_gets. intros ws0 [Hwp _]. rewrite Hwp.
  frame.
Qed.

End Frame.

(** The lock manager never touches the workspace root or the file
    contents when it acquires a lock. *)
Lemma acquire_file_keeps_fs wp d env fp agent w :
  preserves (fs_inv wp d) (acquire_file env fp agent w).
Proof.
  assert (∀ f, preserves (fs_inv wp d) (modify (with_metadata f))) as Hmeta
    by (intros f; by apply preserves_modify).
  assert (∀ f, preserves (fs_inv wp d) (modify (with_activity f))) as Hact
    by (intros f; by apply preserves_modify).
  assert (∀ f, preserves (fs_inv wp d) (modify (with_logs f))) as Hlogs
    by (intros f; by apply preserves_modify).
  unfold acquire_file, _log_file_event, lock_acquire.
  repeat first [ done | preserve_step | case_match ].
Qed.

(** ** An invariant of the reachable workspaces

    A record in state [AVAILABLE] has no holder: every operation that sets
    [locked_by] also sets a locked state, and [release_file] clears both. *)

Lemma unheld_alter f q :
  (∀ m, unheld_when_available m → unheld_when_available (f m)) →
  preserves available_unheld (modify (with_metadata (alter f q))).
Proof.
  intros Hf. apply preserves_modify. intros ws Hinv p m. simpl.
  destruct (decide (q = p)) as [->|Hne].
  - rewrite lookup_alter_eq.
    destruct (file_metadata ws !! p) as [m0|] eqn:Hm0; [|done].
    intros [= <-]. eauto.
  - rewrite lookup_alter_ne by done. apply Hinv.
Qed.

Lemma unheld_insert q x :
  unheld_when_available x →
  preserves available_unheld (modify (with_metadata (insert q x))).
Proof.
  intros Hx. apply preserves_modify. intros ws Hinv p m. simpl.
  destruct (decide (q = p)) as [->|Hne].
  - rewrite lookup_insert_eq. by intros [= <-].
  - rewrite lookup_insert_ne by done. apply Hinv.
Qed.

Lemma unheld_activity f :
  preserves available_unheld (modify (with_activity f)).
Proof. by apply preserves_modify. Qed.

Lemma unheld_logs f : preserves available_unheld (modify (with_logs f)).
Proof. by apply preserves_modify. Qed.

Lemma unheld_disk f : preserves available_unheld (modify (with_disk f)).
Proof. by apply preserves_modify. Qed.

Lemma unheld_state_file s :
  preserves available_unheld (modify (with_state_file s)).
Proof. by apply preserves_modify. Qed.

Lemma unheld_open_read env q : preserves available_unheld (open_read env q).
Proof. intros ws H. unfold exec, open_read. by repeat case_match. Qed.

Create HintDb unheld.

#[global] Hint Resolve unheld_activity unheld_logs unheld_disk
  unheld_state_file unheld_open_read : unheld.
#[global] Hint Extern 1
  (preserves available_unheld (modify (with_metadata (alter _ _)))) =>
  apply unheld_alter; unfold unheld_when_available; simpl; intros;
    first [congruence | auto] : unheld.
#[global] Hint Extern 1
  (preserves available_unheld (modify (with_metadata (insert _ _)))) =>
  apply unheld_insert; unfold unheld_when_available; simpl; intros;
    first [congruence | auto] : unheld.

Ltac unheld :=
  repeat first [ solve [auto with unheld] | preserve_step | case_match ].

Lemma unheld_acquire_file env fp agent w :
  preserves available_unheld (acquire_file env fp agent w).
Proof. unfold acquire_file, _log_file_event, lock_acquire. unheld. Qed.

Lemma unheld_release_file env fp agent :
  preserves available_unheld (release_file env fp agent).
Proof. unfold release_file, _log_file_event. unheld. Qed.

Lemma unheld_read_file env fp agent :
  preserves available_unheld (read_file env fp agent).
Proof.
  unfold read_file, _log_file_event.
  preserve_step; [apply unheld_acquire_file|].
  preserve_step; [preserve_step|].
  preserve_step; [|apply unheld_release_file]. unheld.
Qed.

Lemma unheld_write_file env fp content agent backup :
  preserves available_unheld (write_file env fp content agent backup).
Proof.
  unfold write_file, _log_file_event, open_write.
  preserve_step; [apply unheld_acquire_file|].
  preserve_step; [preserve_step|].
  preserve_step; [|apply unheld_release_file]. unheld.
Qed.

Lemma unheld_handle_file_change env p :
  preserves available_unheld (_handle_file_change env p).
Proof. unfold _handle_file_change. unheld. Qed.

Lemma unheld_handle_file_created env p :
  preserves available_unheld (_handle_file_created env p).
Proof. unfold _handle_file_created. unheld. Qed.

Lemma unheld_save env : preserves available_unheld (save_workspace_state env).
Proof. unfold save_workspace_state. unheld. Qed.

Lemma reachable_available_unheld ws : reachable ws → available_unheld ws.
Proof.
  induction 1 as [wp d l|s ws _ IH].
  - intros p m. unfold WorkspaceManager_init, _initialize_workspace_state.
    unfold_monad. simpl. by rewrite lookup_empty.
  - destruct s as [[]| | |]; simpl.
    + by apply unheld_acquire_file.
    + by apply unheld_release_file.
    + by apply unheld_read_file.
    + by apply unheld_write_file.
    + by apply unheld_handle_file_change.
    + by apply unheld_handle_file_created.
    + by apply unheld_save.
Qed.

(** ** Paths *)

Lemma strip_prefix_app pre r : strip_prefix pre (pre ++ r) = Some r.
Proof.
  induction pre as [|x pre IH]; simpl; [done|]. by rewrite decide_True.
Qed.

Lemma strip_prefix_Some pre l r :
  strip_prefix pre l = Some r → l = (pre ++ r)%list.
Proof.
  revert l. induction pre as [|x pre IH]; intros [|y l] H; simpl in *;
    try congruence.
  destruct (decide (x = y)) as [->|]; [|done]. f_equal. by apply IH.
Qed.

Lemma relative_to_joinpath wp fp :
  is_absolute fp = false →
  relative_to (joinpath wp fp) wp = Some (mkPath false (parts fp)).
Proof.
  intros Hrel. unfold relative_to, joinpath. rewrite Hrel. simpl.
  rewrite decide_True by done. by rewrite strip_prefix_app.
Qed.

Lemma relative_to_Some p base r :
  relative_to p base = Some r →
  p = mkPath (is_absolute base) (parts base ++ parts r).
Proof.
  unfold relative_to. destruct p as [ab ps]; simpl.
  destruct (decide (ab = is_absolute base)) as [->|]; [|done].
  destruct (strip_prefix (parts base) ps) as [rest|] eqn:Hs; [|done].
  intros [= <-]. simpl. f_equal. by apply strip_prefix_Some.
Qed.

Lemma relative_to_inj p q base r :
  relative_to p base = Some r → relative_to q base = Some r → p = q.
Proof. intros Hp Hq. apply relative_to_Some in Hp, Hq. congruence. Qed.

(** ** Observations *)

Lemma tracked_Some fm p m : fm !! p = Some m → tracked fm p = true.
Proof. intros H. unfold tracked. apply bool_decide_eq_true. eauto. Qed.

Lemma tracked_None fm p : fm !! p = None → tracked fm p = false.
Proof.
  intros H. unfold tracked. apply bool_decide_eq_false. rewrite H.
  by intros [? ?].
Qed.

Lemma tracked_alter fm f p q : tracked (alter f q fm) p = tracked fm p.
Proof.
  unfold tracked. apply bool_decide_ext. by rewrite lookup_alter_is_Some.
Qed.

Lemma state_at_Some ws p s :
  state_at ws p = Some s ↔ ∃ m, file_metadata ws !! p = Some m ∧ state m = s.
Proof.
  unfold state_at. destruct (file_metadata ws !! p) as [m|]; simpl; split.
  - intros [= <-]. eauto.
  - by intros (? & [= <-] & <-).
  - done.
  - by intros (? & ? & _).
Qed.

Lemma holder_at_Some ws p h :
  holder_at ws p = Some h ↔
  ∃ m, file_metadata ws !! p = Some m ∧ locked_by m = h.
Proof.
  unfold holder_at. destruct (file_metadata ws !! p) as [m|]; simpl; split.
  - intros [= <-]. eauto.
  - by intros (? & [= <-] & <-).
  - done.
  - by intros (? & ? & _).
Qed.

Lemma holds_write_record ws p a :
  holds_write ws p a ↔
  ∃ m, file_metadata ws !! p = Some m ∧ state m = LOCKED_WRITE ∧
       locked_by m = Some a.
Proof.
  unfold holds_write. rewrite state_at_Some, holder_at_Some. split.
  - intros [(m & Hm & Hst) (m' & Hm' & Hlb)]. exists m.
    assert (m' = m) as -> by congruence. done.
  - intros (m & Hm & Hst & Hlb). split; by exists m.
Qed.

(** ** [acquire_file] *)

(** The guard of [acquire_file]: a write lock of another agent refuses
    the call before anything else happens. *)
Lemma acquire_file_blocked env fp a b w ws :
  holds_write ws (joinpath (workspace_path ws) fp) a → b ≠ a →
  acquire_file env fp b w ws = (Ret false, ws).
Proof.
  intros (m & Hm & Hst & Hlb)%holds_write_record Hne.
  unfold acquire_file. unfold_monad. simpl.
  rewrite (tracked_Some _ _ _ Hm). simpl. rewrite Hm.
  rewrite decide_True; [done|]. split; [done|]. rewrite Hlb. congruence.
Qed.

(** On an untracked path [acquire_file] first creates the record and then
    behaves as on the tracked path. *)
Lemma acquire_file_untracked ws env fp agent w :
  file_metadata ws !! joinpath (workspace_path ws) fp = None →
  acquire_file env fp agent w ws =
  acquire_file env fp agent w
    (with_metadata
       (insert (joinpath (workspace_path ws) fp)
               (new_metadata (now env) (joinpath (workspace_path ws) fp))) ws).
Proof.
  intros Hm. unfold acquire_file.
  rewrite !bind_gets. simpl.
  rewrite (tracked_None _ _ Hm).
  rewrite (tracked_Some _ _ (new_metadata (now env)
             (joinpath (workspace_path ws) fp))) by apply lookup_insert_eq.
  done.
Qed.

Lemma acquire_file_exclusive ws env fp agent m :
  file_metadata ws !! joinpath (workspace_path ws) fp = Some m →
  ¬ (state m = LOCKED_WRITE ∧ locked_by m ≠ Some agent) →
  is_absolute fp = false →
  mutex_held env (lock_path (workspace_path ws) fp) = false →
  result (acquire_file env fp agent true) ws = Ret true ∧
  file_metadata (exec (acquire_file env fp agent true) ws)
    !! joinpath (workspace_path ws) fp =
  Some (add_history (acquired_event env agent fp true)
          (set_lock LOCKED_WRITE (Some agent) m)).
Proof.
  intros Hm Hguard Hrel Hfree.
  unfold acquire_file, _log_file_event. unfold_monad. simpl.
  rewrite (tracked_Some _ _ _ Hm). simpl. rewrite Hm.
  rewrite decide_False by done. rewrite Hfree. simpl.
  rewrite relative_to_joinpath by done. simpl.
  rewrite tracked_alter, (tracked_Some _ _ _ Hm). simpl.
  split; [done|]. by rewrite !lookup_alter_eq, Hm.
Qed.

Lemma acquire_file_shared ws env fp agent m :
  file_metadata ws !! joinpath (workspace_path ws) fp = Some m →
  state m ≠ LOCKED_WRITE →
  is_absolute fp = false →
  result (acquire_file env fp agent false) ws = Ret true ∧
  file_metadata (exec (acquire_file env fp agent false) ws)
    !! joinpath (workspace_path ws) fp =
  Some (add_history (acquired_event env agent fp false)
          (set_lock LOCKED_READ (Some agent) m)).
Proof.
  intros Hm Hst Hrel.
  unfold acquire_file, _log_file_event. unfold_monad. simpl.
  rewrite (tracked_Some _ _ _ Hm). simpl. rewrite Hm.
  rewrite decide_False by (by intros [? _]).
  rewrite decide_True by done. simpl.
  rewrite relative_to_joinpath by done. simpl.
  rewrite tracked_alter, (tracked_Some _ _ _ Hm). simpl.
  split; [done|]. by rewrite !lookup_alter_eq, Hm.
Qed.

Lemma acquire_file_timeout_tracked ws env fp agent m :
  file_metadata ws !! joinpath (workspace_path ws) fp = Some m →
  mutex_held env (lock_path (workspace_path ws) fp) = true →
  acquire_file env fp agent true ws = (Ret false, ws).
Proof.
  intros Hm Hheld.
  unfold acquire_file. unfold_monad. simpl.
  rewrite (tracked_Some _ _ _ Hm). simpl. rewrite Hm.
  case_decide; [done|]. by rewrite Hheld.
Qed.

Lemma acquire_file_timeout_untracked ws env fp agent :
  file_metadata ws !! joinpath (workspace_path ws) fp = None →
  mutex_held env (lock_path (workspace_path ws) fp) = true →
  acquire_file env fp agent true ws =
  (Ret false,
   with_metadata
     (insert (joinpath (workspace_path ws) fp)
             (new_metadata (now env) (joinpath (workspace_path ws) fp))) ws).
Proof.
  intros Hm Hheld. rewrite acquire_file_untracked by done.
  by apply (acquire_file_timeout_tracked _ _ _ _
              (new_metadata (now env) (joinpath (workspace_path ws) fp)));
    [apply lookup_insert_eq|].
Qed.

Lemma acquire_file_timeout ws env fp agent :
  mutex_held env (lock_path (workspace_path ws) fp) = true →
  acquire_file env fp agent true ws =
  (Ret false,
   if tracked (file_metadata ws) (joinpath (workspace_path ws) fp) then ws
   else with_metadata
          (insert (joinpath (workspace_path ws) fp)
             (new_metadata (now env) (joinpath (workspace_path ws) fp))) ws).
Proof.
  intros Hheld.
  destruct (file_metadata ws !! joinpath (workspace_path ws) fp)
    as [m|] eqn:Hm.
  - rewrite (tracked_Some _ _ _ Hm).
    by apply (acquire_file_timeout_tracked _ _ _ _ m).
  - rewrite (tracked_None _ _ Hm). by apply acquire_file_timeout_untracked.
Qed.

Ltac run_log Hm :=
  unfold _log_file_event; unfold_monad; simpl;
  destruct (relative_to _ _); simpl;
  rewrite ?tracked_alter, ?(tracked_Some _ _ _ Hm); simpl;
  rewrite ?lookup_alter_eq, ?Hm; simpl.

(** Whatever it returns, [acquire_file] leaves the state of a tracked path
    as it was or moves it to one of the two locked states. *)
Lemma acquire_file_state_after ws env fp b w m :
  file_metadata ws !! joinpath (workspace_path ws) fp = Some m →
  ∃ m', file_metadata (exec (acquire_file env fp b w) ws)
          !! joinpath (workspace_path ws) fp = Some m' ∧
        (state m' = state m ∨ state m' = LOCKED_READ ∨
         state m' = LOCKED_WRITE).
Proof.
  intros Hm. unfold acquire_file. unfold_monad. simpl.
  rewrite (tracked_Some _ _ _ Hm). simpl. rewrite Hm.
  destruct (decide _) as [|_]; simpl; [by eauto|].
  destruct w.
  - destruct (mutex_held _ _); simpl; [by eauto|]. run_log Hm; eauto.
  - destruct (decide _); simpl; run_log Hm; eauto.
Qed.

(** A successful shared acquisition records the caller as holder, also on
    an untracked path and on a path the caller has write-locked itself. *)
Lemma acquire_file_shared_holder ws env fp agent :
  is_absolute fp = false →
  (∀ m, file_metadata ws !! joinpath (workspace_path ws) fp = Some m →
        ¬ (state m = LOCKED_WRITE ∧ locked_by m ≠ Some agent)) →
  result (acquire_file env fp agent false) ws = Ret true ∧
  holder_at (exec (acquire_file env fp agent false) ws)
            (joinpath (workspace_path ws) fp) = Some (Some agent).
Proof.
  intros Hrel Hguard. unfold holder_at.
  destruct (file_metadata ws !! joinpath (workspace_path ws) fp)
    as [m|] eqn:Hm.
  - specialize (Hguard m eq_refl).
    destruct (decide (state m = LOCKED_WRITE)) as [Hst|Hst].
    + unfold acquire_file. unfold_monad. simpl.
      rewrite (tracked_Some _ _ _ Hm). simpl. rewrite Hm.
      rewrite decide_False by done.
      rewrite decide_False by naive_solver. simpl.
      unfold _log_file_event. unfold_monad. simpl.
      rewrite relative_to_joinpath by done. simpl.
      rewrite (tracked_Some _ _ _ Hm). simpl.
      rewrite lookup_alter_eq, Hm. simpl.
      split; [done|]. f_equal.
      destruct (locked_by m) as [b|]; [|naive_solver].
      destruct (decide (b = agent)) as [->|]; [done|]. naive_solver.
    + destruct (acquire_file_shared ws env fp agent m) as [-> ->]; done.
  - unfold result, exec. rewrite acquire_file_untracked by done.
    edestruct (acquire_file_shared
                 (with_metadata (insert (joinpath (workspace_path ws) fp)
                    (new_metadata (now env) (joinpath (workspace_path ws) fp)))
                    ws) env fp agent) as [Hr Hl]; [apply lookup_insert_eq|..];
      try done.
    unfold result, exec in Hr, Hl. simpl in Hl. by rewrite Hr, Hl.
Qed.

Lemma acquire_file_exclusive_holder ws env fp agent :
  is_absolute fp = false →
  mutex_held env (lock_path (workspace_path ws) fp) = false →
  (∀ m, file_metadata ws !! joinpath (workspace_path ws) fp = Some m →
        ¬ (state m = LOCKED_WRITE ∧ locked_by m ≠ Some agent)) →
  result (acquire_file env fp agent true) ws = Ret true ∧
  holder_at (exec (acquire_file env fp agent true) ws)
            (joinpath (workspace_path ws) fp) = Some (Some agent).
Proof.
  intros Hrel Hfree Hguard. unfold holder_at.
  destruct (file_metadata ws !! joinpath (workspace_path ws) fp)
    as [m|] eqn:Hm.
  - destruct (acquire_file_exclusive ws env fp agent m) as [-> ->]; auto.
  - unfold result, exec. rewrite acquire_file_untracked by done.
    edestruct (acquire_file_exclusive
                 (with_metadata (insert (joinpath (workspace_path ws) fp)
                    (new_metadata (now env) (joinpath (workspace_path ws) fp)))
                    ws) env fp agent) as [Hr Hl]; [apply lookup_insert_eq|..];
      try done.
    { by intros [? _]. }
    unfold result, exec in Hr, Hl. simpl in Hl. by rewrite Hr, Hl.
Qed.

(** ** [release_file] *)

Lemma release_file_not_holder env fp a ws m :
  file_metadata ws !! joinpath (workspace_path ws) fp = Some m →
  locked_by m ≠ Some a →
  release_file env fp a ws = (Ret tt, ws).
Proof.
  intros Hm Hlb. unfold release_file. unfold_monad. simpl.
  rewrite Hm. by rewrite decide_False.
Qed.

(** The holder's release makes the path [AVAILABLE], whatever its state
    was, also when logging the release raises. *)
Lemma release_file_holder ws env fp a m :
  file_metadata ws !! joinpath (workspace_path ws) fp = Some m →
  locked_by m = Some a →
  ∃ m', file_metadata (exec (release_file env fp a) ws)
          !! joinpath (workspace_path ws) fp = Some m' ∧
        state m' = AVAILABLE ∧ locked_by m' = None.
Proof.
  intros Hm Hlb. unfold release_file, _log_file_event. unfold_monad. simpl.
  rewrite Hm. rewrite decide_True by done. simpl.
  destruct (relative_to _ _); simpl;
    rewrite ?tracked_alter, ?(tracked_Some _ _ _ Hm); simpl;
    rewrite ?lookup_alter_eq, Hm; simpl; eauto.
Qed.

Lemma release_file_by_holder ws env fp agent :
  is_absolute fp = false →
  holder_at ws (joinpath (workspace_path ws) fp) = Some (Some agent) →
  result (release_file env fp agent) ws = Ret tt ∧
  state_at (exec (release_file env fp agent) ws)
           (joinpath (workspace_path ws) fp) = Some AVAILABLE ∧
  holder_at (exec (release_file env fp agent) ws)
            (joinpath (workspace_path ws) fp) = Some None.
Proof.
  intros Hrel (m & Hm & Hlb)%holder_at_Some.
  unfold state_at, holder_at, release_file, _log_file_event.
  unfold_monad. simpl. rewrite Hm. rewrite decide_True by done. simpl.
  rewrite relative_to_joinpath by done. simpl.
  rewrite tracked_alter, (tracked_Some _ _ _ Hm). simpl.
  by rewrite !lookup_alter_eq, Hm.
Qed.

(** ** Change watcher *)

Lemma handle_file_change_locked_write ws env p m :
  file_metadata ws !! p = Some m → state m = LOCKED_WRITE →
  result (_handle_file_change env p) ws = Ret tt ∧
  file_metadata (exec (_handle_file_change env p) ws) !! p =
  Some (set_state CONFLICT (set_last_modified (now env) m)).
Proof.
  intros Hm Hst. unfold _handle_file_change. unfold_monad. simpl.
  rewrite Hm. rewrite decide_True by done. simpl.
  split; [done|]. by rewrite !lookup_alter_eq, Hm.
Qed.

Lemma handle_file_change_other_state ws env p m :
  file_metadata ws !! p = Some m → state m ≠ LOCKED_WRITE →
  _handle_file_change env p ws =
  (Ret tt, with_metadata (alter (set_last_modified (now env)) p) ws).
Proof.
  intros Hm Hst. unfold _handle_file_change. unfold_monad. simpl.
  rewrite Hm. by rewrite decide_False.
Qed.

Lemma handle_file_change_untracked ws env p :
  file_metadata ws !! p = None → _handle_file_change env p ws = (Ret tt, ws).
Proof.
  intros Hm. unfold _handle_file_change. unfold_monad. simpl. by rewrite Hm.
Qed.

Lemma handle_file_created_untracked ws env p :
  file_metadata ws !! p = None →
  _handle_file_created env p ws =
  (Ret tt, with_metadata (insert p (new_metadata (now env) p)) ws).
Proof.
  intros Hm. unfold _handle_file_created. unfold_monad. simpl.
  by rewrite (tracked_None _ _ Hm).
Qed.

Lemma handle_file_created_tracked ws env p m :
  file_metadata ws !! p = Some m → _handle_file_created env p ws = (Ret tt, ws).
Proof.
  intros Hm. unfold _handle_file_created. unfold_monad. simpl.
  by rewrite (tracked_Some _ _ _ Hm).
Qed.

(** ** The write lock excludes every other agent *)

Lemma read_file_blocked env fp a b ws :
  holds_write ws (joinpath (workspace_path ws) fp) a → b ≠ a →
  read_file env fp b ws = (Ret None, ws).
Proof.
  intros Hw Hne. unfold read_file.
  by rewrite (bind_returns _ _ _ _ _ (acquire_file_blocked _ _ a _ _ _ Hw Hne)).
Qed.

Lemma write_file_blocked env fp content a b backup ws :
  holds_write ws (joinpath (workspace_path ws) fp) a → b ≠ a →
  write_file env fp content b backup ws = (Ret false, ws).
Proof.
  intros Hw Hne. unfold write_file.
  by rewrite (bind_returns _ _ _ _ _ (acquire_file_blocked _ _ a _ _ _ Hw Hne)).
Qed.

(** A call of another agent keeps the writer's record exactly as it is. *)
Lemma run_call_keeps_writer wp p m a c ws :
  state m = LOCKED_WRITE → locked_by m = Some a → call_agent c ≠ a →
  framed wp p (Some m) ws → framed wp p (Some m) (run_call c ws).
Proof.
  intros Hst Hlb Hne [Hwp Hm].
  assert (∀ fp, joinpath wp fp = p →
            holds_write ws (joinpath (workspace_path ws) fp) a) as Hheld.
  { intros fp <-. rewrite Hwp. apply holds_write_record. by exists m. }
  destruct c as [env fp b w|env fp b|env fp b|env fp content b backup];
    simpl in *; destruct (decide (joinpath wp fp = p)) as [Heq|Hother].
  - unfold exec. by rewrite (acquire_file_blocked _ _ a) by auto.
  - by apply keeps_acquire_file.
  - unfold exec. rewrite (release_file_not_holder _ _ _ _ m); [done|..].
    + by rewrite Hwp, Heq.
    + rewrite Hlb. congruence.
  - by apply keeps_release_file.
  - unfold exec. by rewrite (read_file_blocked _ _ a) by auto.
  - by apply keeps_read_file.
  - unfold exec. by rewrite (write_file_blocked _ _ _ a) by auto.
  - by apply keeps_write_file.
Qed.

(** C1. While agent [a] holds [LOCKED_WRITE] on a path, whatever calls
    (acquire, release, read, write, on this or on other paths) the other
    agents make: [a] still holds the write lock afterwards, nobody else
    holds it, and every acquire on that path by another agent, exclusive or
    not, returns false and changes nothing. *)
Theorem C1_write_lock_excludes_others ws fp a calls :
  let p := joinpath (workspace_path ws) fp in
  holds_write ws p a →
  Forall (λ c, call_agent c ≠ a) calls →
  let ws' := run_calls calls ws in
  holds_write ws' p a ∧
  (∀ b, holds_write ws' p b → b = a) ∧
  (∀ env b w, b ≠ a → acquire_file env fp b w ws' = (Ret false, ws')).
Proof.
  intros p (m & Hm & Hst & Hlb)%holds_write_record Hcalls ws'.
  assert (framed (workspace_path ws) p (Some m) ws') as [Hwp Hm'].
  { subst ws'. assert (framed (workspace_path ws) p (Some m) ws) as Hfr by done.
    revert Hfr. generalize ws at 2 4 as w.
    induction Hcalls as [|c cs Hc _ IH]; intros w Hfr; [done|].
    simpl. apply IH. by apply (run_call_keeps_writer _ _ _ a). }
  assert (holds_write ws' p a) as Hheld.
  { apply holds_write_record. by exists m. }
  split_and!.
  - done.
  - intros b [_ Hb]. destruct Hheld as [_ Ha]. congruence.
  - intros env b w Hne. apply (acquire_file_blocked _ _ a); [|done].
    by rewrite Hwp.
Qed.

Lemma C1_witness :
  holds_write (run_calls other_calls ws_writer)
              (joinpath (workspace_path ws_writer) notes) CLAUDE ∧
  (∀ b, holds_write (run_calls other_calls ws_writer)
                    (joinpath (workspace_path ws_writer) notes) b →
        b = CLAUDE) ∧
  (∀ env b w, b ≠ CLAUDE →
     acquire_file env notes b w (run_calls other_calls ws_writer) =
     (Ret false, run_calls other_calls ws_writer)).
Proof.
  apply (C1_write_lock_excludes_others ws_writer notes CLAUDE other_calls).
  - split; vm_compute; reflexivity.
  - repeat constructor; discriminate.
Defined.

(** ** Read locks *)

(** C2 (as the code has it). On a path in state [LOCKED_READ], a
    non-exclusive acquire by any agent succeeds, keeps the state
    [LOCKED_READ] and records the caller as [locked_by]; an exclusive
    acquire returns false, changing nothing, only when the lock file cannot
    be obtained; otherwise it succeeds at once and moves the path to
    [LOCKED_WRITE] held by the caller, without waiting for any reader. *)
Theorem C2_read_lock_admits_reader_and_writer ws env fp b :
  let p := joinpath (workspace_path ws) fp in
  state_at ws p = Some LOCKED_READ →
  is_absolute fp = false →
  (result (acquire_file env fp b false) ws = Ret true ∧
   state_at (exec (acquire_file env fp b false) ws) p = Some LOCKED_READ ∧
   holder_at (exec (acquire_file env fp b false) ws) p = Some (Some b)) ∧
  (if mutex_held env (lock_path (workspace_path ws) fp)
   then acquire_file env fp b true ws = (Ret false, ws)
   else result (acquire_file env fp b true) ws = Ret true ∧
        state_at (exec (acquire_file env fp b true) ws) p
          = Some LOCKED_WRITE ∧
        holder_at (exec (acquire_file env fp b true) ws) p = Some (Some b)).
Proof.
  intros p (m & Hm & Hst)%state_at_Some Hrel. split.
  - destruct (acquire_file_shared ws env fp b m) as [Hr Hm']; try done.
    { rewrite Hst. discriminate. }
    unfold state_at, holder_at. fold p in Hm'. by rewrite Hm'.
  - destruct (mutex_held _ _) eqn:Hheld.
    + by apply (acquire_file_timeout_tracked _ _ _ _ m).
    + destruct (acquire_file_exclusive ws env fp b m) as [Hr Hm']; try done.
      { rewrite Hst. by intros [? _]. }
      unfold state_at, holder_at. fold p in Hm'. by rewrite Hm'.
Qed.

Lemma C2_witness :
  (result (acquire_file env_free notes GEMINI false) ws_reader = Ret true ∧
   state_at (exec (acquire_file env_free notes GEMINI false) ws_reader)
            (joinpath (workspace_path ws_reader) notes) = Some LOCKED_READ ∧
   holder_at (exec (acquire_file env_free notes GEMINI false) ws_reader)
             (joinpath (workspace_path ws_reader) notes)
     = Some (Some GEMINI)) ∧
  (if mutex_held env_free (lock_path (workspace_path ws_reader) notes)
   then acquire_file env_free notes GEMINI true ws_reader
        = (Ret false, ws_reader)
   else result (acquire_file env_free notes GEMINI true) ws_reader
          = Ret true ∧
        state_at (exec (acquire_file env_free notes GEMINI true) ws_reader)
                 (joinpath (workspace_path ws_reader) notes)
          = Some LOCKED_WRITE ∧
        holder_at (exec (acquire_file env_free notes GEMINI true) ws_reader)
                  (joinpath (workspace_path ws_reader) notes)
          = Some (Some GEMINI)).
Proof.
  apply (C2_read_lock_admits_reader_and_writer ws_reader env_free notes GEMINI).
  - vm_compute. reflexivity.
  - reflexivity.
Defined.

(** C2, counterexample to the specified behaviour (an exclusive request
    fails while a read lock is outstanding): CLAUDE holds a read lock on
    [notes.md] and has not released it; GEMINI asks for the exclusive lock
    while the lock file is free.  The call returns true and the path is
    [LOCKED_WRITE], held by GEMINI. *)
Lemma C2_counterexample :
  state_at ws_reader (joinpath root notes) = Some LOCKED_READ ∧
  holder_at ws_reader (joinpath root notes) = Some (Some CLAUDE) ∧
  result (acquire_file env_free notes GEMINI true) ws_reader = Ret true ∧
  state_at (exec (acquire_file env_free notes GEMINI true) ws_reader)
           (joinpath root notes) = Some LOCKED_WRITE ∧
  holder_at (exec (acquire_file env_free notes GEMINI true) ws_reader)
            (joinpath root notes) = Some (Some GEMINI).
Proof. split_and!; vm_compute; reflexivity. Qed.

(** ** Conflicts *)

(** C3 (as the code has it). Once a path is in state [CONFLICT] with
    holder [a]: watcher events leave it [CONFLICT] with the same holder, a
    release by any other agent changes nothing, and an acquire never takes
    it back to [AVAILABLE] (it stays [CONFLICT] or becomes [LOCKED_READ] or
    [LOCKED_WRITE]); the holder's own release moves it to [AVAILABLE] and
    clears [locked_by]. *)
Theorem C3_conflict_ends_at_holder_release ws env fp a :
  let p := joinpath (workspace_path ws) fp in
  state_at ws p = Some CONFLICT → holder_at ws p = Some (Some a) →
  (state_at (exec (_handle_file_change env p) ws) p = Some CONFLICT ∧
   holder_at (exec (_handle_file_change env p) ws) p = Some (Some a)) ∧
  _handle_file_created env p ws = (Ret tt, ws) ∧
  (∀ b, b ≠ a → release_file env fp b ws = (Ret tt, ws)) ∧
  (∀ b w, state_at (exec (acquire_file env fp b w) ws) p
            ∈ [Some CONFLICT; Some LOCKED_READ; Some LOCKED_WRITE]) ∧
  (state_at (exec (release_file env fp a) ws) p = Some AVAILABLE ∧
   holder_at (exec (release_file env fp a) ws) p = Some None).
Proof.
  intros p (m & Hm & Hst)%state_at_Some (m' & Hm' & Hlb)%holder_at_Some.
  assert (m' = m) as -> by congruence. clear Hm'.
  split_and!.
  - unfold exec.
    rewrite (handle_file_change_other_state _ _ _ m); [|done|by rewrite Hst].
    unfold state_at. simpl. rewrite lookup_alter_eq, Hm. simpl. by f_equal.
  - unfold exec.
    rewrite (handle_file_change_other_state _ _ _ m); [|done|by rewrite Hst].
    unfold holder_at. simpl. rewrite lookup_alter_eq, Hm. simpl. by f_equal.
  - by apply (handle_file_created_tracked _ _ _ m).
  - intros b Hne. apply (release_file_not_holder _ _ _ _ m); [done|].
    rewrite Hlb. congruence.
  - intros b w.
    destruct (acquire_file_state_after ws env fp b w m Hm) as (m' & Hm' & Hs).
    fold p in Hm'. unfold state_at. rewrite Hm'. simpl. rewrite Hst in Hs.
    destruct Hs as [->| [->| ->]]; set_solver.
  - destruct (release_file_holder ws env fp a m Hm Hlb) as (m' & Hm' & ? & ?).
    fold p in Hm'. unfold state_at. rewrite Hm'. simpl. by f_equal.
  - destruct (release_file_holder ws env fp a m Hm Hlb) as (m' & Hm' & ? & ?).
    fold p in Hm'. unfold holder_at. rewrite Hm'. simpl. by f_equal.
Qed.

Lemma C3_witness :
  state_at (exec (release_file env_free notes CLAUDE) ws_conflict)
           (joinpath (workspace_path ws_conflict) notes) = Some AVAILABLE ∧
  holder_at (exec (release_file env_free notes CLAUDE) ws_conflict)
            (joinpath (workspace_path ws_conflict) notes) = Some None.
Proof.
  apply (C3_conflict_ends_at_holder_release ws_conflict env_free notes CLAUDE);
    vm_compute; reflexivity.
Defined.

(** C3, counterexample to the specified behaviour ([CONFLICT] survives the
    holder's release): CLAUDE takes the write lock
    on [notes.md], the watcher reports a modification and the path becomes
    [CONFLICT]; CLAUDE then releases, and the path is [AVAILABLE]. *)
Lemma C3_counterexample :
  state_at ws_writer (joinpath root notes) = Some LOCKED_WRITE ∧
  state_at ws_conflict (joinpath root notes) = Some CONFLICT ∧
  holder_at ws_conflict (joinpath root notes) = Some (Some CLAUDE) ∧
  state_at (exec (release_file env_free notes CLAUDE) ws_conflict)
           (joinpath root notes) = Some AVAILABLE.
Proof. split_and!; vm_compute; reflexivity. Qed.

(** ** Watcher events on untracked paths *)

(** C4 (as the code has it). On an untracked path a [created] event
    yields a fresh [AVAILABLE] record without holder; a [modified] event is
    dropped: the handler returns without creating a record or changing the
    workspace. *)
Theorem C4_watcher_on_untracked_path ws env p :
  file_metadata ws !! p = None →
  (_handle_file_created env p ws =
     (Ret tt, with_metadata (insert p (new_metadata (now env) p)) ws) ∧
   state_at (exec (_handle_file_created env p) ws) p = Some AVAILABLE ∧
   holder_at (exec (_handle_file_created env p) ws) p = Some None) ∧
  _handle_file_change env p ws = (Ret tt, ws).
Proof.
  intros Hm. rewrite handle_file_change_untracked by done.
  unfold exec. rewrite handle_file_created_untracked by done.
  unfold state_at, holder_at. simpl. by rewrite lookup_insert_eq.
Qed.

Lemma C4_witness :
  (_handle_file_created env_free (joinpath root notes) ws_fresh =
     (Ret tt,
      with_metadata
        (insert (joinpath root notes)
                (new_metadata (now env_free) (joinpath root notes)))
        ws_fresh) ∧
   state_at (exec (_handle_file_created env_free (joinpath root notes))
                  ws_fresh)
            (joinpath root notes) = Some AVAILABLE ∧
   holder_at (exec (_handle_file_created env_free (joinpath root notes))
                   ws_fresh)
             (joinpath root notes) = Some None) ∧
  _handle_file_change env_free (joinpath root notes) ws_fresh
    = (Ret tt, ws_fresh).
Proof.
  apply (C4_watcher_on_untracked_path ws_fresh env_free (joinpath root notes)).
  vm_compute. reflexivity.
Defined.

(** C4, counterexample to the specified behaviour (a [modified] event on
    an untracked path creates the record): a [modified] event for the
    untracked [notes.md] leaves the path untracked. *)
Lemma C4_counterexample :
  file_metadata ws_fresh !! joinpath root notes = None ∧
  file_metadata
    (exec (_handle_file_change env_free (joinpath root notes)) ws_fresh)
    !! joinpath root notes = None.
Proof. split; vm_compute; reflexivity. Qed.

(** ** Contention *)




(** ** Lock files *)



(** ** Audit log query *)

Lemma scan_lines_spec agent_value limit lines events :
  (Z.of_nat (length events) < limit)%Z →
  scan_lines agent_value limit lines events =
  if decide (limit ≤ Z.of_nat (length (events ++ matching agent_value lines)))%Z
  then inl (take (Z.to_nat limit) (events ++ matching agent_value lines))
  else inr (events ++ matching agent_value lines)%list.
Proof.
  revert events. induction lines as [|e lines IH]; intros events Hlt.
  { unfold matching. simpl. rewrite app_nil_r. by rewrite decide_False by lia. }
  assert (matching agent_value (e :: lines) =
          if decide (ev_agent e = agent_value)
          then e :: matching agent_value lines
          else matching agent_value lines) as ->.
  { unfold matching. rewrite filter_cons. by destruct (decide _). }
  simpl. destruct (decide (ev_agent e = agent_value)) as [He|He]; [|by apply IH].
  replace (events ++ e :: matching agent_value lines)%list
    with ((events ++ [e]) ++ matching agent_value lines)%list
    by (by rewrite <-app_assoc).
  destruct (decide (limit ≤ Z.of_nat (length (events ++ [e])))%Z) as [Hle|Hgt].
  - rewrite length_app in Hle. simpl in Hle.
    rewrite decide_True by (rewrite !length_app; simpl; lia).
    f_equal. symmetry. apply take_app_length'.
    rewrite length_app. simpl. lia.
  - apply IH. lia.
Qed.

Lemma scan_files_spec agent_value limit files events :
  (Z.of_nat (length events) < limit)%Z →
  scan_files agent_value limit files events =
  take (Z.to_nat limit)
       (events ++ concat ((λ f, matching agent_value f.2) <$> files)).
Proof.
  revert events. induction files as [|f files IH]; intros events Hlt; simpl.
  { rewrite app_nil_r. symmetry. apply take_ge. lia. }
  rewrite scan_lines_spec by done. rewrite app_assoc.
  case_decide as Hle.
  - symmetry. apply take_app_le. lia.
  - apply IH. lia.
Qed.

(** What the query computes for a positive limit: the agent's events of the
    three newest partitions, newest partition first but in file order
    (oldest first) inside each partition, cut after [limit] events. *)
Lemma recent_events_spec l agent limit :
  (0 < limit)%Z →
  recent_events l agent limit =
  take (Z.to_nat limit)
       (concat ((λ f, matching (AgentType_value agent) f.2)
                  <$> take 3 (log_files l))).
Proof. intros Hpos. unfold recent_events. by rewrite scan_files_spec. Qed.

(** C6, the code at the failing input: after the ten events of CLAUDE in
    [ws_ten], all in one day partition, the query with limit 5 returns the
    five oldest events, oldest first (times 1 to 5), where the specification
    promises the five most recent, newest first (times 10 down to 6). *)
Theorem C6_query_returns_oldest_events :
  logs ws_ten = {[ 20240101%N := ten_events ]} ∧
  result (_get_recent_events CLAUDE 5) ws_ten = Ret (take 5 ten_events) ∧
  tick ∘ ev_timestamp <$> take 5 ten_events = [1; 2; 3; 4; 5]%N ∧
  tick ∘ ev_timestamp <$> reverse (drop 5 ten_events) = [10; 9; 8; 7; 6]%N ∧
  result (_get_recent_events CLAUDE 5) ws_ten
    ≠ Ret (reverse (drop 5 ten_events)).
Proof.
  split_and!; try (vm_compute; reflexivity).
  intros Heq. vm_compute in Heq. discriminate Heq.
Qed.

(** ** Snapshot and recovery *)

Lemma FileState_value_roundtrip s :
  FileState_of_value (FileState_value s) = Some s.
Proof. by destruct s. Qed.

Lemma AgentType_value_roundtrip a :
  AgentType_of_value (AgentType_value a) = Some a.
Proof. by destruct a. Qed.

Lemma parse_locked_by_roundtrip lb :
  parse_locked_by (AgentType_value <$> lb) = Some lb.
Proof. by destruct lb as [[]|]. Qed.

Lemma restore_files_lookup d (items : list (Path * FileMetadata)) acc p :
  NoDup items.*1 →
  restore_files d (file_data_of <$> items) acc !! p =
  match (list_to_map items : gmap Path FileMetadata) !! p with
  | Some m => if exists_on d p then Some (restored p m) else acc !! p
  | None => acc !! p
  end.
Proof.
  revert acc. induction items as [|[q m] items IH]; intros acc Hnd; [done|].
  apply NoDup_cons in Hnd as [Hq Hnd]. simpl in *.
  apply (not_elem_of_list_to_map_1 (M := gmap Path)) in Hq.
  rewrite FileState_value_roundtrip, parse_locked_by_roundtrip.
  destruct (exists_on d q) eqn:Hex; rewrite IH by done;
    destruct (decide (q = p)) as [->|Hne].
  - by rewrite Hq, !lookup_insert_eq, Hex.
  - by rewrite !lookup_insert_ne.
  - by rewrite Hq, lookup_insert_eq, Hex.
  - by rewrite lookup_insert_ne.
Qed.

Lemma restore_after_save ws env d l p :
  file_metadata
    (WorkspaceManager_init (workspace_path ws) d l
       (state_file (exec (save_workspace_state env) ws))) !! p =
  if exists_on d p then restored p <$> file_metadata ws !! p else None.
Proof.
  unfold WorkspaceManager_init, save_workspace_state,
    _initialize_workspace_state.
  unfold_monad. simpl.
  rewrite restore_files_lookup by apply NoDup_fst_map_to_list.
  rewrite list_to_map_to_list, lookup_empty.
  by destruct (file_metadata ws !! p), (exists_on d p).
Qed.

(** C7. Saving the workspace state and starting a fresh manager from the
    saved file, over a disk [d]: a path that exists on [d] is tracked by
    the fresh manager exactly when it was tracked before, under the same
    path, with the same state and the same [locked_by]; a path that does
    not exist on [d] is not tracked. *)
Theorem C7_snapshot_restore_roundtrip ws env d l p :
  let saved := exec (save_workspace_state env) ws in
  let fresh :=
    WorkspaceManager_init (workspace_path ws) d l (state_file saved) in
  if exists_on d p then
    state_at fresh p = state_at ws p ∧
    holder_at fresh p = holder_at ws p ∧
    (path <$> file_metadata fresh !! p) = ((λ _, p) <$> file_metadata ws !! p)
  else file_metadata fresh !! p = None.
Proof.
  intros saved fresh. subst saved fresh.
  unfold state_at, holder_at. rewrite restore_after_save.
  destruct (exists_on d p); [|done].
  by destruct (file_metadata ws !! p).
Qed.

(** ** Compound operations under I/O failure *)

Lemma open_read_fails env p ws :
  io_fault env p = true ∨ disk ws !! p = None →
  open_read env p ws = (Raise OSError, ws).
Proof.
  intros Hfail. unfold open_read. destruct (io_fault env p); [done|].
  by destruct Hfail as [?| ->].
Qed.

(** When the file cannot be read, [read_file] releases the lock and lets
    the exception reach the caller. *)
Lemma read_file_io_failure ws env fp agent :
  let p := joinpath (workspace_path ws) fp in
  is_absolute fp = false →
  (∀ m, file_metadata ws !! p = Some m →
        ¬ (state m = LOCKED_WRITE ∧ locked_by m ≠ Some agent)) →
  io_fault env p = true ∨ disk ws !! p = None →
  result (read_file env fp agent) ws = Raise OSError ∧
  state_at (exec (read_file env fp agent) ws) p = Some AVAILABLE ∧
  holder_at (exec (read_file env fp agent) ws) p = Some None.
Proof.
  intros p Hrel Hguard Hfail.
  destruct (acquire_file_shared_holder ws env fp agent Hrel Hguard) as [Hr Hh].
  destruct (acquire_file_keeps_fs (workspace_path ws) (disk ws) env fp agent
              false ws) as [Hwp Hd]; [done|].
  pose proof (run_pair (acquire_file env fp agent false) ws) as Hacq.
  rewrite Hr in Hacq. set (ws1 := exec _ ws) in *.
  rewrite <-Hwp in Hh.
  destruct (release_file_by_holder ws1 env fp agent Hrel Hh) as (Hr2 & Hs & Hl).
  pose proof (run_pair (release_file env fp agent) ws1) as Hrel2.
  rewrite Hr2 in Hrel2. rewrite Hwp in Hs, Hl.
  assert (read_file env fp agent ws =
          (Raise OSError, exec (release_file env fp agent) ws1)) as Hrun.
  { unfold read_file. rewrite (bind_returns _ _ _ _ _ Hacq). simpl.
    apply try_finally_runs with ws1; [|done].
    rewrite bind_gets. apply bind_raises, open_read_fails.
    by rewrite Hwp, Hd. }
  assert (result (read_file env fp agent) ws = Raise OSError) as ->
    by (unfold result; by rewrite Hrun).
  assert (exec (read_file env fp agent) ws =
          exec (release_file env fp agent) ws1) as ->
    by (unfold exec at 1; by rewrite Hrun).
  done.
Qed.

(** When the target cannot be opened, [write_file] releases the lock and
    returns false. *)
Lemma write_file_io_failure ws env fp content agent backup :
  let p := joinpath (workspace_path ws) fp in
  is_absolute fp = false →
  mutex_held env (lock_path (workspace_path ws) fp) = false →
  (∀ m, file_metadata ws !! p = Some m →
        ¬ (state m = LOCKED_WRITE ∧ locked_by m ≠ Some agent)) →
  io_fault env p = true →
  result (write_file env fp content agent backup) ws = Ret false ∧
  state_at (exec (write_file env fp content agent backup) ws) p
    = Some AVAILABLE ∧
  holder_at (exec (write_file env fp content agent backup) ws) p = Some None.
Proof.
  intros p Hrel Hfree Hguard Hfail.
  destruct (acquire_file_exclusive_holder ws env fp agent Hrel Hfree Hguard)
    as [Hr Hh].
  destruct (acquire_file_keeps_fs (workspace_path ws) (disk ws) env fp agent
              true ws) as [Hwp Hd]; [done|].
  pose proof (run_pair (acquire_file env fp agent true) ws) as Hacq.
  rewrite Hr in Hacq. set (ws1 := exec _ ws) in *.
  rewrite <-Hwp in Hh.
  destruct (release_file_by_holder ws1 env fp agent Hrel Hh) as (Hr2 & Hs & Hl).
  pose proof (run_pair (release_file env fp agent) ws1) as Hrel2.
  rewrite Hr2 in Hrel2. rewrite Hwp in Hs, Hl.
  assert (write_file env fp content agent backup ws =
          (Ret false, exec (release_file env fp agent) ws1)) as Hrun.
  { unfold write_file. rewrite (bind_returns _ _ _ _ _ Hacq). simpl.
    apply try_finally_runs with ws1; [|done].
    erewrite try_except_catches; [done| |done].
    rewrite !bind_gets, Hwp. fold p.
    destruct (backup && exists_on (disk ws1) p).
    - apply bind_raises, bind_raises, open_read_fails. by left.
    - rewrite (bind_returns _ _ _ tt ws1) by done.
      apply bind_raises. unfold open_write. by rewrite Hfail. }
  assert (result (write_file env fp content agent backup) ws = Ret false) as ->
    by (unfold result; by rewrite Hrun).
  assert (exec (write_file env fp content agent backup) ws =
          exec (release_file env fp agent) ws1) as ->
    by (unfold exec at 1; by rewrite Hrun).
  done.
Qed.

(** C8, the code at the failing input: [notes.md] is not on disk, so
    opening it fails after CLAUDE's read lock was taken.  [read_file]
    releases the lock (the path ends [AVAILABLE], without holder) but the
    [OSError] reaches the caller; it does not return [None].  [write_file],
    when opening its target fails, returns false and releases. *)
Theorem C8_read_failure_raises :
  disk ws_fresh !! joinpath root notes = None ∧
  result (read_file env_free notes CLAUDE) ws_fresh = Raise OSError ∧
  state_at (exec (read_file env_free notes CLAUDE) ws_fresh)
           (joinpath root notes) = Some AVAILABLE ∧
  holder_at (exec (read_file env_free notes CLAUDE) ws_fresh)
            (joinpath root notes) = Some None ∧
  result (write_file env_fault notes "draft" CLAUDE true) ws_fresh
    = Ret false ∧
  state_at (exec (write_file env_fault notes "draft" CLAUDE true) ws_fresh)
           (joinpath root notes) = Some AVAILABLE.
Proof. split_and!; vm_compute; reflexivity. Qed.

(** ** Agent view *)

(** The two lists the loop of [get_agent_view] builds, in closed form *)
Lemma view_loop_lists wp a items sh lk sh' lk' :
  view_loop wp a items sh lk = Some (sh', lk') →
  Forall (λ item, is_Some (relative_to item.1 wp)) items ∧
  lk' = (lk ++ omap (file_info_of wp) (filter (is_locked_by a) items))%list ∧
  sh' = (sh ++ omap (file_info_of wp) (filter (is_shared_for a) items))%list.
Proof.
  revert sh lk. induction items as [|[q m] items IH]; intros sh lk Hloop.
  { simpl in Hloop. injection Hloop as <- <-. by rewrite !app_nil_r. }
  simpl in Hloop.
  destruct (relative_to q wp) as [r|] eqn:Hr; [|done].
  assert (file_info_of wp (q, m) =
          Some (mkFileInfo r (FileState_value (state m)) (last_modified m)))
    as Hinfo by (unfold file_info_of; simpl; by rewrite Hr).
  destruct (decide (locked_by m = Some a)) as [Hlb|Hlb];
    [|destruct (decide (state m = AVAILABLE)) as [Hst|Hst]];
    apply IH in Hloop as (Hrel & -> & ->).
  - split_and!.
    + constructor; [simpl; by rewrite Hr|done].
    + rewrite filter_cons_True by done. simpl. rewrite Hinfo.
      by rewrite <-app_assoc.
    + rewrite filter_cons_False; [done|]. by intros [? _].
  - split_and!.
    + constructor; [simpl; by rewrite Hr|done].
    + by rewrite filter_cons_False.
    + rewrite filter_cons_True by done. simpl. rewrite Hinfo.
      by rewrite <-app_assoc.
  - split_and!.
    + constructor; [simpl; by rewrite Hr|done].
    + by rewrite filter_cons_False.
    + rewrite filter_cons_False; [done|]. by intros [_ ?].
Qed.

Lemma elem_of_view_list wp (P : Path * FileMetadata → Prop)
    `{∀ item, Decision (P item)} (items : list (Path * FileMetadata)) rel :
  rel ∈ fi_path <$> omap (file_info_of wp) (filter P items) ↔
  ∃ item, item ∈ items ∧ P item ∧ relative_to item.1 wp = Some rel.
Proof.
  rewrite list_elem_of_fmap. split.
  - intros (info & -> & Hinfo). apply list_elem_of_omap in Hinfo
      as (item & [HP Hin]%list_elem_of_filter & Hitem).
    exists item. split_and!; [done..|].
    unfold file_info_of in Hitem.
    destruct (relative_to item.1 wp); simpl in Hitem; [|done].
    by injection Hitem as <-.
  - intros (item & Hin & HP & Hrel).
    exists (mkFileInfo rel (FileState_value (state item.2))
                       (last_modified item.2)).
    split; [done|]. apply list_elem_of_omap. exists item.
    split; [by apply list_elem_of_filter|].
    unfold file_info_of. by rewrite Hrel.
Qed.

Lemma agent_view_lists ws agent view p m :
  result (get_agent_view agent) ws = Ret view →
  file_metadata ws !! p = Some m →
  ∃ rel, relative_to p (workspace_path ws) = Some rel ∧
    (rel ∈ fi_path <$> locked_files view ↔ locked_by m = Some agent) ∧
    (rel ∈ fi_path <$> shared_files view ↔
       locked_by m ≠ Some agent ∧ state m = AVAILABLE).
Proof.
  intros Hview Hm. unfold get_agent_view, _get_current_context,
    _get_recent_events in Hview. unfold_monad. simpl in Hview.
  destruct (view_loop _ _ _ _ _) as [[sh lk]|] eqn:Hloop; [|done].
  simpl in Hview. injection Hview as <-. simpl.
  apply view_loop_lists in Hloop as (Hrel & -> & ->). simpl.
  assert ((p, m) ∈ map_to_list (file_metadata ws)) as Hin
    by by apply elem_of_map_to_list.
  rewrite Forall_forall in Hrel.
  destruct (Hrel _ Hin) as [rel Hp]. simpl in Hp. exists rel.
  assert (∀ item, item ∈ map_to_list (file_metadata ws) →
            relative_to item.1 (workspace_path ws) = Some rel →
            item = (p, m)) as Hsame.
  { intros [q m'] Hq%elem_of_map_to_list Hqr. simpl in Hqr.
    rewrite (relative_to_inj _ _ _ _ Hqr Hp) in Hq |- *. congruence. }
  split_and!; [done|..]; rewrite elem_of_view_list; split.
  - intros (item & Hitem & HP & Hr). by rewrite (Hsame _ Hitem Hr) in HP.
  - intros Hlb. by exists (p, m).
  - intros (item & Hitem & HP & Hr). by rewrite (Hsame _ Hitem Hr) in HP.
  - intros Hsh. by exists (p, m).
Qed.

(** [get_agent_view] returns a view whenever every tracked path lies under
    the workspace root. *)
Lemma view_loop_returns wp a items sh lk :
  Forall (λ item, is_Some (relative_to item.1 wp)) items →
  is_Some (view_loop wp a items sh lk).
Proof.
  intros Hall. revert sh lk.
  induction Hall as [|[q m] items [r Hr] _ IH]; intros sh lk; simpl; [done|].
  simpl in Hr. rewrite Hr. by repeat case_decide.
Qed.

Lemma get_agent_view_returns ws agent :
  (∀ p, tracked (file_metadata ws) p = true →
        is_Some (relative_to p (workspace_path ws))) →
  ∃ view, get_agent_view agent ws = (Ret view, ws).
Proof.
  intros Hunder.
  destruct (view_loop_returns (workspace_path ws) agent
              (map_to_list (file_metadata ws)) [] []) as [[sh lk] Hloop].
  { apply Forall_forall. intros [q m] Hq%elem_of_map_to_list. simpl.
    apply Hunder. by apply (tracked_Some _ _ m). }
  unfold get_agent_view, _get_current_context, _get_recent_events.
  unfold_monad. simpl. rewrite Hloop. simpl. eauto.
Qed.

(** C10. In the view returned to [agent], a tracked path is listed (by its
    workspace-relative path) in [locked_files] exactly when its
    [locked_by] is [agent], whatever its state; in [shared_files] exactly
    when its [locked_by] is not [agent] and its state is [AVAILABLE]; a
    path whose [locked_by] is not [agent] and whose state is not
    [AVAILABLE] ([MODIFIED], [CONFLICT] or a locked state) is in neither
    list; and in a reachable workspace a path locked by a different agent is
    in neither list. *)
Theorem C10_agent_view_lists ws agent view p :
  result (get_agent_view agent) ws = Ret view →
  tracked (file_metadata ws) p = true →
  ∃ rel, relative_to p (workspace_path ws) = Some rel ∧
    (rel ∈ fi_path <$> locked_files view ↔
       holder_at ws p = Some (Some agent)) ∧
    (rel ∈ fi_path <$> shared_files view ↔
       holder_at ws p ≠ Some (Some agent) ∧
       state_at ws p = Some AVAILABLE) ∧
    (holder_at ws p ≠ Some (Some agent) → state_at ws p ≠ Some AVAILABLE →
       (rel ∉ fi_path <$> locked_files view) ∧
       (rel ∉ fi_path <$> shared_files view)) ∧
    (reachable ws → ∀ b, b ≠ agent → holder_at ws p = Some (Some b) →
       (rel ∉ fi_path <$> locked_files view) ∧
       (rel ∉ fi_path <$> shared_files view)).
Proof.
  intros Hview [m Hm]%bool_decide_eq_true.
  destruct (agent_view_lists ws agent view p m Hview Hm)
    as (rel & Hrel & Hl & Hs).
  exists rel. unfold holder_at, state_at. rewrite Hm. simpl.
  split_and!; [done|..].
  - rewrite Hl. split; congruence.
  - rewrite Hs. split; intros [Hlb Hst]; split; congruence.
  - rewrite Hl, Hs. intros Hlb Hst.
    split; [intros ?|intros [_ ?]]; [apply Hlb|apply Hst]; congruence.
  - intros Hreach b Hne [= Hb]. rewrite Hl, Hs.
    pose proof (reachable_available_unheld ws Hreach p m Hm) as Hinv.
    unfold unheld_when_available in Hinv.
    split; [intros ?|intros [_ Hst]]; [|apply Hinv in Hst]; congruence.
Qed.

Lemma C10_witness :
  (notes ∉ fi_path <$> locked_files view_gemini) ∧
  (notes ∉ fi_path <$> shared_files view_gemini).
Proof.
  destruct (C10_agent_view_lists ws_two_files GEMINI view_gemini
              (joinpath root notes)) as (rel & Hrel & _ & _ & _ & Hother).
  - vm_compute. reflexivity.
  - vm_compute. reflexivity.
  - vm_compute in Hrel. injection Hrel as <-.
    apply (Hother
             (reachable_step (StepCreated (env_at 5 false false)
                                          (joinpath root todo)) _
                (reachable_step (StepCall (CallAcquire env_free notes CLAUDE
                                                       true)) _
                   (reachable_init root ∅ ∅))) CLAUDE).
    + discriminate.
    + vm_compute. reflexivity.
Defined.

(** * Further properties of the code *)

(** ** Closed forms of the operations *)

Lemma log_file_event_run env wp fp agent action details ws :
  workspace_path ws = wp → is_absolute fp = false →
  _log_file_event env (joinpath wp fp) agent action details ws =
  (Ret tt, logged env (joinpath wp fp) (event_of env agent action fp details) ws).
Proof.
  intros <- Hrel. unfold _log_file_event. rewrite bind_gets.
  rewrite relative_to_joinpath by done. simpl.
  rewrite bind_gets. unfold logged, bind, modify, ret.
  by destruct (tracked _ _).
Qed.

Lemma ensure_tracked_lookup env p ws :
  file_metadata (ensure_tracked env p ws) !! p =
  Some (default (new_metadata (now env) p) (file_metadata ws !! p)).
Proof.
  unfold ensure_tracked. destruct (file_metadata ws !! p) as [m|] eqn:Hm.
  - by rewrite (tracked_Some _ _ _ Hm).
  - rewrite (tracked_None _ _ Hm). simpl. by rewrite lookup_insert_eq.
Qed.

Lemma acquire_file_ensure ws env fp agent w :
  acquire_file env fp agent w ws =
  acquire_file env fp agent w
    (ensure_tracked env (joinpath (workspace_path ws) fp) ws).
Proof.
  unfold ensure_tracked.
  destruct (file_metadata ws !! joinpath (workspace_path ws) fp) as [m|] eqn:Hm.
  - by rewrite (tracked_Some _ _ _ Hm).
  - rewrite (tracked_None _ _ Hm). by apply acquire_file_untracked.
Qed.

Lemma acquire_file_exclusive_run ws env fp agent :
  is_absolute fp = false →
  mutex_held env (lock_path (workspace_path ws) fp) = false →
  (∀ m, file_metadata ws !! joinpath (workspace_path ws) fp = Some m →
        ¬ (state m = LOCKED_WRITE ∧ locked_by m ≠ Some agent)) →
  acquire_file env fp agent true ws =
  (Ret true,
   logged env (joinpath (workspace_path ws) fp)
     (event_of env agent "acquired" fp (DWrite true))
     (with_activity
        (update_activity agent
           (acquired_activity env (joinpath (workspace_path ws) fp)))
        (with_metadata
           (alter (set_lock LOCKED_WRITE (Some agent))
                  (joinpath (workspace_path ws) fp))
           (ensure_tracked env (joinpath (workspace_path ws) fp) ws)))).
Proof.
  intros Hrel Hfree Hguard. rewrite acquire_file_ensure.
  set (p := joinpath (workspace_path ws) fp) in *.
  pose proof (ensure_tracked_lookup env p ws) as Hm.
  assert (workspace_path (ensure_tracked env p ws) = workspace_path ws) as Hwp.
  { unfold ensure_tracked. by destruct (tracked _ _). }
  set (ws0 := ensure_tracked env p ws) in *.
  set (m0 := default _ _) in Hm.
  assert (¬ (state m0 = LOCKED_WRITE ∧ locked_by m0 ≠ Some agent)) as Hg.
  { subst m0. destruct (file_metadata ws !! p) as [m|] eqn:E; simpl.
    - by apply Hguard. - by intros [? _]. }
  unfold acquire_file. unfold_monad. simpl. rewrite Hwp. fold p.
  rewrite (tracked_Some _ _ _ Hm). simpl. rewrite Hm.
  rewrite decide_False by done. rewrite Hfree. simpl.
  subst p. rewrite (log_file_event_run _ (workspace_path ws)) by done.
  done.
Qed.

Lemma logged_disk env p e ws : disk (logged env p e ws) = disk ws.
Proof. unfold logged. by destruct (tracked _ _). Qed.

Lemma logged_workspace_path env p e ws :
  workspace_path (logged env p e ws) = workspace_path ws.
Proof. unfold logged. by destruct (tracked _ _). Qed.

Lemma logged_activity env p e ws :
  agent_activity (logged env p e ws) = agent_activity ws.
Proof. unfold logged. by destruct (tracked _ _). Qed.

Lemma logged_logs env p e ws :
  logs (logged env p e ws) = append_line (day (now env)) e (logs ws).
Proof. unfold logged. by destruct (tracked _ _). Qed.

Lemma logged_metadata env p e ws :
  file_metadata (logged env p e ws) = alter (add_history e) p (file_metadata ws).
Proof.
  unfold logged. destruct (file_metadata ws !! p) as [m|] eqn:Hm.
  - by rewrite (tracked_Some _ _ _ Hm).
  - rewrite (tracked_None _ _ Hm). simpl. apply map_eq. intros q.
    destruct (decide (p = q)) as [<-|].
    + by rewrite lookup_alter_eq, Hm.
    + by rewrite lookup_alter_ne.
Qed.

Lemma logged_state_at env p e ws q :
  state_at (logged env p e ws) q = state_at ws q.
Proof.
  unfold state_at. rewrite logged_metadata.
  destruct (decide (p = q)) as [<-|].
  - rewrite lookup_alter_eq. by destruct (file_metadata ws !! p).
  - by rewrite lookup_alter_ne.
Qed.

Lemma logged_holder_at env p e ws q :
  holder_at (logged env p e ws) q = holder_at ws q.
Proof.
  unfold holder_at. rewrite logged_metadata.
  destruct (decide (p = q)) as [<-|].
  - rewrite lookup_alter_eq. by destruct (file_metadata ws !! p).
  - by rewrite lookup_alter_ne.
Qed.

Lemma logged_last_modified_at env p e ws q :
  last_modified_at (logged env p e ws) q = last_modified_at ws q.
Proof.
  unfold last_modified_at. rewrite logged_metadata.
  destruct (decide (p = q)) as [<-|].
  - rewrite lookup_alter_eq. by destruct (file_metadata ws !! p).
  - by rewrite lookup_alter_ne.
Qed.

Lemma release_file_run ws env fp a :
  is_absolute fp = false →
  holder_at ws (joinpath (workspace_path ws) fp) = Some (Some a) →
  release_file env fp a ws =
  (Ret tt,
   logged env (joinpath (workspace_path ws) fp)
     (event_of env a "released" fp DEmpty)
     (with_activity
        (update_activity a (released_activity (joinpath (workspace_path ws) fp)))
        (with_metadata
           (alter (set_lock AVAILABLE None) (joinpath (workspace_path ws) fp))
           ws))).
Proof.
  intros Hrel (m & Hm & Hlb)%holder_at_Some.
  unfold release_file. unfold_monad. simpl. rewrite Hm.
  rewrite decide_True by done. simpl.
  by rewrite (log_file_event_run _ (workspace_path ws)) by done.
Qed.

Lemma release_file_keeps_fs wp d env fp agent :
  preserves (fs_inv wp d) (release_file env fp agent).
Proof.
  assert (∀ f, preserves (fs_inv wp d) (modify (with_metadata f))) as Hmeta
    by (intros f; by apply preserves_modify).
  assert (∀ f, preserves (fs_inv wp d) (modify (with_activity f))) as Hact
    by (intros f; by apply preserves_modify).
  assert (∀ f, preserves (fs_inv wp d) (modify (with_logs f))) as Hlogs
    by (intros f; by apply preserves_modify).
  unfold release_file, _log_file_event.
  repeat first [ done | preserve_step | case_match ].
Qed.

(** A successful read *)
Lemma read_file_success ws env fp agent content :
  let p := joinpath (workspace_path ws) fp in
  is_absolute fp = false →
  (∀ m, file_metadata ws !! p = Some m →
        ¬ (state m = LOCKED_WRITE ∧ locked_by m ≠ Some agent)) →
  io_fault env p = false → disk ws !! p = Some content →
  result (read_file env fp agent) ws = Ret (Some content) ∧
  state_at (exec (read_file env fp agent) ws) p = Some AVAILABLE ∧
  holder_at (exec (read_file env fp agent) ws) p = Some None ∧
  disk (exec (read_file env fp agent) ws) = disk ws.
Proof.
  intros p Hrel Hguard Hio Hdisk.
  destruct (acquire_file_shared_holder ws env fp agent Hrel Hguard) as [Hr Hh].
  destruct (acquire_file_keeps_fs (workspace_path ws) (disk ws) env fp agent
              false ws) as [Hwp Hd]; [done|].
  pose proof (run_pair (acquire_file env fp agent false) ws) as Hacq.
  rewrite Hr in Hacq. set (ws1 := exec _ ws) in *. fold p in Hh.
  set (ws2 := logged env p (event_of env agent "read" fp DEmpty) ws1).
  assert (holder_at ws2 (joinpath (workspace_path ws2) fp)
          = Some (Some agent)) as Hh2.
  { subst ws2. by rewrite logged_workspace_path, Hwp, logged_holder_at. }
  destruct (release_file_by_holder ws2 env fp agent Hrel Hh2) as (Hr2 & Hs & Hl).
  destruct (release_file_keeps_fs (workspace_path ws) (disk ws) env fp agent ws2)
    as [_ Hd3].
  { subst ws2. split; [by rewrite logged_workspace_path|by rewrite logged_disk]. }
  pose proof (run_pair (release_file env fp agent) ws2) as Hrel2.
  rewrite Hr2 in Hrel2.
  assert (workspace_path ws2 = workspace_path ws) as Hwp2
    by (subst ws2; by rewrite logged_workspace_path).
  rewrite Hwp2 in Hs, Hl. fold p in Hs, Hl.
  assert (read_file env fp agent ws =
          (Ret (Some content), exec (release_file env fp agent) ws2)) as Hrun.
  { unfold read_file. rewrite (bind_returns _ _ _ _ _ Hacq). simpl.
    apply try_finally_runs with ws2; [|done].
    rewrite bind_gets, Hwp. fold p.
    rewrite (bind_returns _ _ _ content ws1).
    2:{ unfold open_read. by rewrite Hio, Hd, Hdisk. }
    rewrite (bind_returns _ _ _ tt ws2); [done|].
    by apply log_file_event_run. }
  assert (exec (read_file env fp agent) ws =
          exec (release_file env fp agent) ws2) as ->
    by (unfold exec at 1; by rewrite Hrun).
  unfold result. by rewrite Hrun.
Qed.

Lemma write_file_success ws env fp content agent backup :
  let p := joinpath (workspace_path ws) fp in
  is_absolute fp = false →
  mutex_held env (lock_path (workspace_path ws) fp) = false →
  (∀ m, file_metadata ws !! p = Some m →
        ¬ (state m = LOCKED_WRITE ∧ locked_by m ≠ Some agent)) →
  (∀ q, io_fault env q = false) →
  result (write_file env fp content agent backup) ws = Ret true ∧
  disk (exec (write_file env fp content agent backup) ws) =
    written_disk env (workspace_path ws) fp content backup (disk ws) ∧
  state_at (exec (write_file env fp content agent backup) ws) p
    = Some AVAILABLE ∧
  holder_at (exec (write_file env fp content agent backup) ws) p
    = Some None ∧
  last_modified_at (exec (write_file env fp content agent backup) ws) p
    = Some (now env) ∧
  workspace_path (exec (write_file env fp content agent backup) ws)
    = workspace_path ws.
Proof.
  intros p Hrel Hfree Hguard Hio.
  destruct (acquire_file_exclusive_holder ws env fp agent Hrel Hfree Hguard)
    as [Hr Hh].
  destruct (acquire_file_keeps_fs (workspace_path ws) (disk ws) env fp agent
              true ws) as [Hwp Hd]; [done|].
  pose proof (run_pair (acquire_file env fp agent true) ws) as Hacq.
  rewrite Hr in Hacq. set (ws1 := exec _ ws) in *. fold p in Hh.
  apply holder_at_Some in Hh as (m1 & Hm1 & Hlb1).
  set (wsb := match (if backup then disk ws !! p else None) with
              | Some old =>
                  with_disk
                    (insert (backup_path env (workspace_path ws) fp) old) ws1
              | None => ws1
              end).
  set (wsd := with_disk (insert p content) wsb).
  set (wsm := with_metadata
                (alter (λ m, set_state MODIFIED
                               (set_last_modified (now env) m)) p) wsd).
  set (ws2 := logged env p
                (event_of env agent "wrote" fp (DSize (String.length content)))
                wsm).
  assert (file_metadata ws2 !! p =
          Some (add_history
                  (event_of env agent "wrote" fp
                            (DSize (String.length content)))
                  (set_state MODIFIED (set_last_modified (now env) m1))))
    as Hm2.
  { subst ws2 wsm wsd wsb. rewrite logged_metadata. simpl.
    rewrite !lookup_alter_eq.
    by destruct (if backup then _ else _); simpl; rewrite Hm1. }
  assert (workspace_path ws2 = workspace_path ws) as Hwp2.
  { subst ws2 wsm wsd wsb. rewrite logged_workspace_path. simpl.
    by destruct (if backup then _ else _). }
  assert (disk ws2 =
          written_disk env (workspace_path ws) fp content backup (disk ws))
    as Hd2.
  { subst ws2 wsm wsd wsb. rewrite logged_disk. simpl.
    unfold written_disk. fold p.
    by destruct (if backup then _ else _); simpl; rewrite Hd. }
  assert (holder_at ws2 (joinpath (workspace_path ws2) fp)
          = Some (Some agent)) as Hh2.
  { rewrite Hwp2. fold p. unfold holder_at. rewrite Hm2. simpl. by f_equal. }
  pose proof (release_file_run ws2 env fp agent Hrel Hh2) as Hrel2.
  rewrite Hwp2 in Hrel2. fold p in Hrel2.
  assert (write_file env fp content agent backup ws =
          (Ret true, (release_file env fp agent ws2).2)) as Hrun.
  { unfold write_file. rewrite (bind_returns _ _ _ _ _ Hacq). simpl.
    apply try_finally_runs with ws2; [|by rewrite Hrel2].
    unfold try_except.
    rewrite !bind_gets, Hwp, Hd. fold p.
    rewrite (bind_returns _ _ _ tt wsb).
    2:{ unfold open_write, open_read. rewrite !Hio. subst wsb.
        unfold exists_on, bind, modify, ret, with_disk, backup_path. simpl.
        destruct backup; simpl; [|done].
        destruct (disk ws !! p) as [old|] eqn:Hold.
        - rewrite bool_decide_eq_true_2 by eauto.
          assert (disk ws1 !! p = Some old) as -> by (by rewrite Hd). done.
        - by rewrite bool_decide_eq_false_2 by (by intros [? ?]). }
    rewrite (bind_returns _ _ _ tt wsd)
      by (unfold open_write; by rewrite Hio).
    rewrite bind_gets.
    rewrite (tracked_Some _ _ m1)
      by (subst wsd wsb; simpl; by destruct (if backup then _ else _)).
    rewrite (bind_returns _ _ _ tt wsm) by done.
    rewrite (bind_returns _ _ _ tt ws2); [done|].
    apply log_file_event_run; [|done]. subst wsm wsd wsb. simpl.
    by destruct (if backup then _ else _). }
  assert (exec (write_file env fp content agent backup) ws =
          (release_file env fp agent ws2).2) as ->
    by (unfold exec; by rewrite Hrun).
  assert (result (write_file env fp content agent backup) ws = Ret true) as ->
    by (unfold result; by rewrite Hrun).
  clearbody ws2. rewrite Hrel2. cbv beta iota delta [snd].
  rewrite logged_disk, logged_state_at, logged_holder_at,
    logged_last_modified_at, logged_workspace_path.
  unfold state_at, holder_at, last_modified_at. simpl.
  rewrite lookup_alter_eq, Hm2. simpl. done.
Qed.

Lemma acquire_file_shared_run ws env fp agent :
  let p := joinpath (workspace_path ws) fp in
  is_absolute fp = false →
  (∀ m, file_metadata ws !! p = Some m → state m ≠ LOCKED_WRITE) →
  acquire_file env fp agent false ws =
  (Ret true,
   logged env p (event_of env agent "acquired" fp (DWrite false))
     (with_activity (update_activity agent (acquired_activity env p))
        (with_metadata (alter (set_lock LOCKED_READ (Some agent)) p)
           (ensure_tracked env p ws)))).
Proof.
  intros p Hrel Hguard. rewrite acquire_file_ensure. fold p.
  pose proof (ensure_tracked_lookup env p ws) as Hm.
  assert (workspace_path (ensure_tracked env p ws) = workspace_path ws) as Hwp.
  { unfold ensure_tracked. by destruct (tracked _ _). }
  set (ws0 := ensure_tracked env p ws) in *.
  set (m0 := default _ _) in Hm.
  assert (state m0 ≠ LOCKED_WRITE) as Hg.
  { subst m0. destruct (file_metadata ws !! p) as [m|] eqn:E; simpl.
    - by apply Hguard. - done. }
  unfold acquire_file. unfold_monad. simpl. rewrite Hwp. fold p.
  rewrite (tracked_Some _ _ _ Hm). simpl. rewrite Hm.
  rewrite decide_False by (by intros [? _]).
  rewrite decide_True by done. simpl.
  subst p. rewrite (log_file_event_run _ (workspace_path ws)) by done.
  done.
Qed.

Lemma acquire_file_own_write_run ws env fp agent :
  let p := joinpath (workspace_path ws) fp in
  is_absolute fp = false →
  holds_write ws p agent →
  acquire_file env fp agent false ws =
  (Ret true,
   logged env p (event_of env agent "acquired" fp (DWrite false))
     (with_activity (update_activity agent (acquired_activity env p)) ws)).
Proof.
  intros p Hrel (m & Hm & Hst & Hlb)%holds_write_record.
  unfold acquire_file. unfold_monad. simpl. fold p.
  rewrite (tracked_Some _ _ _ Hm). simpl. rewrite Hm.
  rewrite decide_False by (intros [_ ?]; congruence).
  rewrite decide_False by (intros ?; congruence). simpl.
  subst p. rewrite (log_file_event_run _ (workspace_path ws)) by done.
  done.
Qed.

(** X1. The holder of the write lock can acquire the path again, in either
    mode: the call returns true and the path stays [LOCKED_WRITE], held by
    the same agent (a shared request does not downgrade the lock). *)
Theorem X1_holder_reacquires ws env fp a w :
  let p := joinpath (workspace_path ws) fp in
  holds_write ws p a →
  is_absolute fp = false →
  (w = true → mutex_held env (lock_path (workspace_path ws) fp) = false) →
  result (acquire_file env fp a w) ws = Ret true ∧
  holds_write (exec (acquire_file env fp a w) ws) p a.
Proof.
  intros p Hheld Hrel Hfree. unfold result, exec. destruct w.
  - apply holds_write_record in Hheld as (m & Hm & Hst & Hlb).
    destruct (acquire_file_exclusive ws env fp a m) as [Hr Hm']; auto.
    { intros [_ ?]. congruence. }
    unfold result, exec in Hr, Hm'. rewrite Hr. split; [done|].
    apply holds_write_record. eauto.
  - rewrite acquire_file_own_write_run by done. split; [done|].
    unfold holds_write. cbv beta iota delta [snd].
    by rewrite logged_state_at, logged_holder_at.
Qed.

Lemma X1_witness :
  result (acquire_file env_free notes CLAUDE false) ws_writer = Ret true ∧
  holds_write (exec (acquire_file env_free notes CLAUDE false) ws_writer)
              (joinpath (workspace_path ws_writer) notes) CLAUDE.
Proof.
  apply (X1_holder_reacquires ws_writer env_free notes CLAUDE false).
  - split; vm_compute; reflexivity.
  - reflexivity.
  - discriminate.
Defined.

Lemma string_length_app (s t : string) :
  String.length (s +:+ t) = String.length s + String.length t.
Proof.
  induction s as [|c s IH]; [done|].
  change (String c s +:+ t) with (String c (s +:+ t)).
  simpl. by rewrite IH.
Qed.

Lemma string_app_inv_tail (s1 s2 t : string) :
  s1 +:+ t = s2 +:+ t → s1 = s2.
Proof.
  revert s2. induction s1 as [|c s1 IH]; intros [|c' s2] Heq.
  - done.
  - apply (f_equal String.length) in Heq.
    rewrite !string_length_app in Heq. simpl in Heq. lia.
  - apply (f_equal String.length) in Heq.
    rewrite !string_length_app in Heq. simpl in Heq. lia.
  - change (String c (s1 +:+ t) = String c' (s2 +:+ t)) in Heq.
    injection Heq as -> Heq. f_equal. by apply IH.
Qed.

(** The backup never lands on the file being written. *)
Lemma backup_path_fresh env wp fp :
  is_absolute fp = false → backup_path env wp fp ≠ joinpath wp fp.
Proof.
  intros Hrel Heq.
  unfold backup_path, joinpath, joinname in Heq. rewrite Hrel in Heq.
  simpl in Heq. injection Heq as Hparts.
  rewrite <-app_assoc in Hparts. apply app_inv_head in Hparts.
  assert (name fp = name fp +:+ "." +:+ isoformat (now env)) as Hname.
  { unfold name at 1. by rewrite <-Hparts. }
  apply (f_equal String.length) in Hname.
  rewrite !string_length_app in Hname. simpl in Hname. lia.
Qed.









(** X6. A refused write (the path is write-locked by another agent, or the
    lock file is held elsewhere) returns false and leaves every file and the
    audit log as they were; a read refused by another agent's write lock
    returns [None] and changes nothing at all. *)
Theorem X6_refused_operations_do_nothing ws env fp content a b backup :
  let p := joinpath (workspace_path ws) fp in
  holds_write ws p a ∧ b ≠ a ∨
  mutex_held env (lock_path (workspace_path ws) fp) = true →
  result (write_file env fp content b backup) ws = Ret false ∧
  disk (exec (write_file env fp content b backup) ws) = disk ws ∧
  logs (exec (write_file env fp content b backup) ws) = logs ws ∧
  (holds_write ws p a ∧ b ≠ a → read_file env fp b ws = (Ret None, ws)).
Proof.
  intros p Hcase.
  assert (∃ ws', write_file env fp content b backup ws = (Ret false, ws') ∧
                 disk ws' = disk ws ∧ logs ws' = logs ws)
    as (ws' & Hrun & Hd & Hl).
  { destruct Hcase as [[Hheld Hne]|Hbusy].
    - exists ws. by rewrite (write_file_blocked _ _ _ a).
    - eexists. split.
      + unfold write_file.
        by rewrite (bind_returns _ _ _ _ _
                      (acquire_file_timeout ws env fp b Hbusy)).
      + by destruct (tracked (file_metadata ws) _). }
  unfold result, exec. rewrite Hrun. simpl. split_and!; try done.
  intros [Hheld Hne]. by apply (read_file_blocked _ _ a).
Qed.

Lemma X6_witness :
  result (write_file env_free notes "draft" GEMINI true) ws_writer = Ret false.
Proof.
  destruct (X6_refused_operations_do_nothing ws_writer env_free notes "draft"
              CLAUDE GEMINI true) as (Hr & _).
  - left. split; [split; vm_compute; reflexivity | discriminate].
  - exact Hr.
Defined.

(** X7. Releasing twice: whatever the first [release_file] did, a second one
    by the same agent returns without changing anything. *)
Theorem X7_release_file_idempotent ws env env' fp a :
  release_file env' fp a (exec (release_file env fp a) ws) =
  (Ret tt, exec (release_file env fp a) ws).
Proof.
  destruct (file_metadata ws !! joinpath (workspace_path ws) fp)
    as [m|] eqn:Hm.
  - destruct (decide (locked_by m = Some a)) as [Hlb|Hlb].
    + destruct (release_file_holder ws env fp a m Hm Hlb) as (m' & Hm' & _ & Hn).
      destruct (release_file_keeps_fs (workspace_path ws) (disk ws) env fp a ws)
        as [Hwp _]; [done|].
      apply (release_file_not_holder _ _ _ _ m'); rewrite ?Hwp; [done|].
      by rewrite Hn.
    + unfold exec. rewrite (release_file_not_holder env fp a ws m) by done.
      simpl. by apply (release_file_not_holder _ _ _ _ m).
  - assert (∀ e, release_file e fp a ws = (Ret tt, ws)) as Hnop.
    { intros e. unfold release_file. unfold_monad. simpl. by rewrite Hm. }
    unfold exec. rewrite (Hnop env). simpl. apply Hnop.
Qed.

(** ** Agent activity *)

Lemma update_activity_same a f act : update_activity a f act a = f (act a).
Proof. unfold update_activity. by rewrite decide_True. Qed.

Lemma update_activity_other a b f act :
  a ≠ b → update_activity a f act b = act b.
Proof. intros. unfold update_activity. by rewrite decide_False. Qed.

Lemma ensure_tracked_activity env p ws :
  agent_activity (ensure_tracked env p ws) = agent_activity ws.
Proof. unfold ensure_tracked. by destruct (tracked _ _). Qed.

(** A successful acquire, whatever the mode: the observable effects *)
Lemma acquire_file_succeeds ws env fp a w :
  let p := joinpath (workspace_path ws) fp in
  is_absolute fp = false →
  (∀ m, file_metadata ws !! p = Some m →
        ¬ (state m = LOCKED_WRITE ∧ locked_by m ≠ Some a)) →
  (w = true → mutex_held env (lock_path (workspace_path ws) fp) = false) →
  result (acquire_file env fp a w) ws = Ret true ∧
  workspace_path (exec (acquire_file env fp a w) ws) = workspace_path ws ∧
  holder_at (exec (acquire_file env fp a w) ws) p = Some (Some a) ∧
  agent_activity (exec (acquire_file env fp a w) ws) =
    update_activity a (acquired_activity env p) (agent_activity ws).
Proof.
  intros p Hrel Hguard Hfree. unfold result, exec.
  destruct w.
  - rewrite acquire_file_exclusive_run by auto. fold p.
    cbv beta iota delta [fst snd].
    rewrite logged_workspace_path, logged_holder_at, logged_activity. simpl.
    rewrite ensure_tracked_activity. split_and!; try done.
    + unfold ensure_tracked. by destruct (tracked _ _).
    + unfold holder_at. simpl. rewrite lookup_alter_eq.
      by rewrite ensure_tracked_lookup.
  - destruct (file_metadata ws !! p) as [m|] eqn:Hm;
      [destruct (decide (state m = LOCKED_WRITE)) as [Hst|Hst]|].
    + assert (holds_write ws p a) as Hheld.
      { apply holds_write_record. exists m. split_and!; try done.
        destruct (decide (locked_by m = Some a)); [done|].
        destruct (Hguard m eq_refl). done. }
      rewrite acquire_file_own_write_run by done. fold p.
      cbv beta iota delta [fst snd].
      rewrite logged_workspace_path, logged_holder_at, logged_activity.
      destruct Hheld as [_ Hh]. split_and!; try done; exact Hh.
    + rewrite acquire_file_shared_run by (fold p; congruence). fold p.
      cbv beta iota delta [fst snd].
      rewrite logged_workspace_path, logged_holder_at, logged_activity. simpl.
      rewrite ensure_tracked_activity. split_and!; try done.
      * unfold ensure_tracked. by destruct (tracked _ _).
      * unfold holder_at. simpl. rewrite lookup_alter_eq.
        by rewrite ensure_tracked_lookup.
    + rewrite acquire_file_shared_run by (fold p; congruence). fold p.
      cbv beta iota delta [fst snd].
      rewrite logged_workspace_path, logged_holder_at, logged_activity. simpl.
      rewrite ensure_tracked_activity. split_and!; try done.
      * unfold ensure_tracked. by destruct (tracked _ _).
      * unfold holder_at. simpl. rewrite lookup_alter_eq.
        by rewrite ensure_tracked_lookup.
Qed.

(** X8. Activity bookkeeping: a successful acquire puts the path into the
    caller's [current_files] and sets its [last_active] to the time of the
    call, leaving the activity of the other agents alone; the caller's
    release takes the path out again. *)
Theorem X8_acquire_release_activity ws env env' fp a w :
  let p := joinpath (workspace_path ws) fp in
  let ws1 := exec (acquire_file env fp a w) ws in
  is_absolute fp = false →
  (∀ m, file_metadata ws !! p = Some m →
        ¬ (state m = LOCKED_WRITE ∧ locked_by m ≠ Some a)) →
  (w = true → mutex_held env (lock_path (workspace_path ws) fp) = false) →
  p ∈ current_files (agent_activity ws1 a) ∧
  last_active (agent_activity ws1 a) = Some (now env) ∧
  (∀ b, b ≠ a → agent_activity ws1 b = agent_activity ws b) ∧
  p ∉ current_files (agent_activity (exec (release_file env' fp a) ws1) a).
Proof.
  intros p ws1 Hrel Hguard Hfree.
  destruct (acquire_file_succeeds ws env fp a w Hrel Hguard Hfree)
    as (_ & Hwp & Hh & Hact).
  fold p ws1 in Hwp, Hh, Hact. rewrite Hact.
  rewrite update_activity_same. unfold acquired_activity.
  cbn [current_files last_active]. split_and!.
  - apply elem_of_union. left. by apply elem_of_singleton_2.
  - done.
  - intros b Hne. by rewrite update_activity_other.
  - unfold exec. rewrite release_file_run by (by rewrite ?Hwp).
    cbv beta iota delta [snd]. rewrite logged_activity.
    cbn [agent_activity with_activity].
    rewrite update_activity_same. unfold released_activity.
    cbn [current_files]. rewrite Hwp.
    apply not_elem_of_difference. right. by apply elem_of_singleton_2.
Qed.

Lemma X8_witness :
  joinpath (workspace_path ws_fresh) notes
    ∈ current_files (agent_activity ws_writer CLAUDE) ∧
  last_active (agent_activity ws_writer CLAUDE) = Some (now env_free).
Proof.
  destruct (X8_acquire_release_activity ws_fresh env_free
              (env_at 2 false false) notes CLAUDE true) as (Hin & Hlast & _).
  - reflexivity.
  - intros m Hm. vm_compute in Hm. discriminate Hm.
  - intros _. reflexivity.
  - split; [exact Hin|exact Hlast].
Defined.

(** X9. The single [locked_by] slot under shared locks: when a second agent
    takes a read lock on a path that another agent holds [LOCKED_READ], the
    newcomer becomes the recorded holder; the first reader's release then
    does nothing, and the path stays in the first reader's
    [current_files]. *)
Theorem X9_reader_takeover ws env env' fp a b :
  let p := joinpath (workspace_path ws) fp in
  let ws1 := exec (acquire_file env fp b false) ws in
  state_at ws p = Some LOCKED_READ →
  holder_at ws p = Some (Some a) →
  p ∈ current_files (agent_activity ws a) →
  b ≠ a →
  is_absolute fp = false →
  holder_at ws1 p = Some (Some b) ∧
  release_file env' fp a ws1 = (Ret tt, ws1) ∧
  p ∈ current_files (agent_activity ws1 a).
Proof.
  intros p ws1 (m & Hm & Hst)%state_at_Some _ Hin Hne Hrel.
  destruct (acquire_file_succeeds ws env fp b false) as (_ & Hwp & Hh & Hact);
    [done| |done|].
  { intros m' Hm' [? _]. fold p in Hm'. congruence. }
  fold p ws1 in Hwp, Hh, Hact. split_and!; [done|..].
  - apply holder_at_Some in Hh as (m1 & Hm1 & Hlb).
    apply (release_file_not_holder _ _ _ _ m1); rewrite ?Hwp; [done|].
    rewrite Hlb. congruence.
  - rewrite Hact. by rewrite update_activity_other.
Qed.

Lemma X9_witness :
  holder_at (exec (acquire_file (env_at 2 false false) notes GEMINI false)
                  ws_reader)
            (joinpath (workspace_path ws_reader) notes) = Some (Some GEMINI) ∧
  release_file (env_at 3 false false) notes CLAUDE
    (exec (acquire_file (env_at 2 false false) notes GEMINI false) ws_reader)
  = (Ret tt,
     exec (acquire_file (env_at 2 false false) notes GEMINI false) ws_reader) ∧
  joinpath (workspace_path ws_reader) notes
    ∈ current_files
        (agent_activity
           (exec (acquire_file (env_at 2 false false) notes GEMINI false)
                 ws_reader) CLAUDE).
Proof.
  apply (X9_reader_takeover ws_reader (env_at 2 false false)
           (env_at 3 false false) notes CLAUDE GEMINI).
  - vm_compute. reflexivity.
  - vm_compute. reflexivity.
  - apply (bool_decide_unpack _). vm_compute. exact I.
  - discriminate.
  - reflexivity.
Defined.

(** ** Paths outside the workspace *)

Lemma joinpath_absolute wp fp : is_absolute fp = true → joinpath wp fp = fp.
Proof. intros H. unfold joinpath. by rewrite H. Qed.

Lemma log_file_event_outside env q agent action details ws :
  relative_to q (workspace_path ws) = None →
  _log_file_event env q agent action details ws = (Raise ValueError, ws).
Proof. intros H. unfold _log_file_event. rewrite bind_gets. by rewrite H. Qed.

Lemma ensure_tracked_workspace_path env p ws :
  workspace_path (ensure_tracked env p ws) = workspace_path ws.
Proof. unfold ensure_tracked. by destruct (tracked _ _). Qed.

Lemma acquire_file_outside ws env fp a w :
  is_absolute fp = true →
  relative_to fp (workspace_path ws) = None →
  (∀ m, file_metadata ws !! fp = Some m →
        ¬ (state m = LOCKED_WRITE ∧ locked_by m ≠ Some a)) →
  (w = true → mutex_held env (lock_path (workspace_path ws) fp) = false) →
  result (acquire_file env fp a w) ws = Raise ValueError ∧
  workspace_path (exec (acquire_file env fp a w) ws) = workspace_path ws ∧
  holder_at (exec (acquire_file env fp a w) ws) fp = Some (Some a) ∧
  state_at (exec (acquire_file env fp a w) ws) fp
    ∈ [Some LOCKED_READ; Some LOCKED_WRITE].
Proof.
  intros Habs Hout Hguard Hfree. unfold result, exec.
  rewrite acquire_file_ensure. rewrite (joinpath_absolute _ _ Habs).
  pose proof (ensure_tracked_lookup env fp ws) as Hm.
  pose proof (ensure_tracked_workspace_path env fp ws) as Hwp.
  set (ws0 := ensure_tracked env fp ws) in *.
  set (m0 := default _ _) in Hm.
  assert (¬ (state m0 = LOCKED_WRITE ∧ locked_by m0 ≠ Some a)) as Hg.
  { subst m0. destruct (file_metadata ws !! fp) as [m|] eqn:E; simpl.
    - by apply Hguard. - by intros [? _]. }
  unfold acquire_file. unfold_monad. simpl.
  rewrite Hwp, (joinpath_absolute _ _ Habs).
  rewrite (tracked_Some _ _ _ Hm). simpl. rewrite Hm.
  rewrite decide_False by done.
  destruct w.
  - rewrite Hfree by done. simpl.
    rewrite log_file_event_outside by (simpl; by rewrite Hwp). simpl.
    unfold holder_at, state_at. simpl. rewrite lookup_alter_eq, Hm. simpl.
    split_and!; try done. apply elem_of_cons. right. apply elem_of_cons. by left.
  - destruct (decide (state m0 ≠ LOCKED_WRITE)) as [Hst|Hst]; simpl.
    + rewrite log_file_event_outside by (simpl; by rewrite Hwp). simpl.
      unfold holder_at, state_at. simpl. rewrite lookup_alter_eq, Hm. simpl.
      split_and!; try done. apply elem_of_cons. by left.
    + rewrite log_file_event_outside by (simpl; by rewrite Hwp). simpl.
      unfold holder_at, state_at. simpl. rewrite Hm. simpl.
      assert (state m0 = LOCKED_WRITE) as Hlw
        by (destruct (decide (state m0 = LOCKED_WRITE)); [done|by destruct Hst]).
      assert (locked_by m0 = Some a) as Hlb
        by (destruct (decide (locked_by m0 = Some a)); [done|by destruct Hg]).
      rewrite Hlw, Hlb. split_and!; try done.
      apply elem_of_cons. right. apply elem_of_cons. by left.
Qed.

Lemma view_loop_outside wp a (items : list (Path * FileMetadata)) q m sh lk :
  (q, m) ∈ items → relative_to q wp = None →
  view_loop wp a items sh lk = None.
Proof.
  intros Hin Hout. revert sh lk.
  induction items as [|[q' m'] items IH]; intros sh lk.
  { by apply elem_of_nil in Hin. }
  apply elem_of_cons in Hin as [Heq|Hin]; simpl.
  - injection Heq as <- <-. by rewrite Hout.
  - destruct (relative_to q' wp); [|done]. repeat case_decide; by apply IH.
Qed.

Lemma get_agent_view_outside ws agent p :
  tracked (file_metadata ws) p = true →
  relative_to p (workspace_path ws) = None →
  get_agent_view agent ws = (Raise ValueError, ws).
Proof.
  intros [m Hm]%bool_decide_eq_true Hout.
  unfold get_agent_view, _get_current_context. unfold_monad. simpl.
  by rewrite (view_loop_outside _ _ _ p m)
    by (by apply elem_of_map_to_list || done).
Qed.


(** X11. An absolute path outside the workspace root: [acquire_file] raises
    [ValueError] (from logging the acquisition) after the lock was recorded,
    so the path is left locked by the caller, and from then on
    [get_agent_view] raises for every agent. *)
Theorem X11_acquire_outside_workspace ws env fp a w :
  is_absolute fp = true →
  relative_to fp (workspace_path ws) = None →
  (∀ m, file_metadata ws !! fp = Some m →
        ¬ (state m = LOCKED_WRITE ∧ locked_by m ≠ Some a)) →
  (w = true → mutex_held env (lock_path (workspace_path ws) fp) = false) →
  result (acquire_file env fp a w) ws = Raise ValueError ∧
  holder_at (exec (acquire_file env fp a w) ws) fp = Some (Some a) ∧
  state_at (exec (acquire_file env fp a w) ws) fp
    ∈ [Some LOCKED_READ; Some LOCKED_WRITE] ∧
  (∀ b, result (get_agent_view b) (exec (acquire_file env fp a w) ws)
        = Raise ValueError).
Proof.
  intros Habs Hout Hguard Hfree.
  destruct (acquire_file_outside ws env fp a w Habs Hout Hguard Hfree)
    as (Hr & Hwp & Hh & Hs).
  split_and!; try done. intros b. unfold result.
  rewrite (get_agent_view_outside _ b fp); [done| |by rewrite Hwp].
  apply holder_at_Some in Hh as (m & Hm & _). by apply (tracked_Some _ _ m).
Qed.

Lemma X11_witness :
  result (acquire_file env_free outside CLAUDE false) ws_fresh
    = Raise ValueError ∧
  holder_at ws_stranded outside = Some (Some CLAUDE) ∧
  state_at ws_stranded outside ∈ [Some LOCKED_READ; Some LOCKED_WRITE] ∧
  (∀ b, result (get_agent_view b) ws_stranded = Raise ValueError).
Proof.
  apply (X11_acquire_outside_workspace ws_fresh env_free outside CLAUDE false).
  - reflexivity.
  - reflexivity.
  - intros m Hm. vm_compute in Hm. discriminate Hm.
  - discriminate.
Defined.

(** X12. [read_file] on an absolute path outside the workspace root: the
    exception of [acquire_file] leaves before the [try] block is entered, so
    nothing releases the lock; the call raises [ValueError] and the path
    stays locked by the caller. *)
Theorem X12_read_outside_workspace_strands_lock ws env fp a :
  is_absolute fp = true →
  relative_to fp (workspace_path ws) = None →
  (∀ m, file_metadata ws !! fp = Some m →
        ¬ (state m = LOCKED_WRITE ∧ locked_by m ≠ Some a)) →
  result (read_file env fp a) ws = Raise ValueError ∧
  holder_at (exec (read_file env fp a) ws) fp = Some (Some a) ∧
  state_at (exec (read_file env fp a) ws) fp
    ∈ [Some LOCKED_READ; Some LOCKED_WRITE].
Proof.
  intros Habs Hout Hguard.
  destruct (acquire_file_outside ws env fp a false Habs Hout Hguard)
    as (Hr & _ & Hh & Hs); [done|].
  pose proof (run_pair (acquire_file env fp a false) ws) as Hacq.
  rewrite Hr in Hacq.
  assert (read_file env fp a ws =
          (Raise ValueError, exec (acquire_file env fp a false) ws)) as Hrun.
  { unfold read_file. by rewrite (bind_raises _ _ _ _ _ Hacq). }
  assert (exec (read_file env fp a) ws
          = exec (acquire_file env fp a false) ws) as ->.
  { change (exec (read_file env fp a) ws) with (snd (read_file env fp a ws)).
    by rewrite Hrun. }
  split_and!; try done. unfold result. by rewrite Hrun.
Qed.

Lemma X12_witness :
  result (read_file env_free outside CLAUDE) ws_fresh = Raise ValueError ∧
  holder_at (exec (read_file env_free outside CLAUDE) ws_fresh) outside
    = Some (Some CLAUDE) ∧
  state_at (exec (read_file env_free outside CLAUDE) ws_fresh) outside
    ∈ [Some LOCKED_READ; Some LOCKED_WRITE].
Proof.
  apply (X12_read_outside_workspace_strands_lock ws_fresh env_free outside
           CLAUDE).
  - reflexivity.
  - reflexivity.
  - intros m Hm. vm_compute in Hm. discriminate Hm.
Defined.

(** ** What the manager never undoes *)

Lemma exec_bind_gets {A B} (f : Workspace → A) (k : A → M B) ws :
  exec (bind (gets f) k) ws = exec (k (f ws)) ws.
Proof. done. Qed.

Lemma exec_try_finally {A} (body : M A) final ws :
  exec (try_finally body final) ws = exec final (exec body ws).
Proof.
  unfold exec, try_finally. destruct (body ws) as [r ws']. simpl.
  by destruct (final ws') as [[?|?] ?].
Qed.

Lemma preserves_setdefault (P : Workspace → Prop) q x {B} (k : M B) :
  (∀ ws, P ws → file_metadata ws !! q = None →
         P (with_metadata (insert q x) ws)) →
  preserves P k →
  preserves P (let! fm := gets file_metadata in
               (if tracked fm q then ret tt
                else modify (with_metadata (insert q x))) >>; k).
Proof.
  intros Hins Hk ws HP. rewrite exec_bind_gets.
  destruct (file_metadata ws !! q) as [m|] eqn:Hm.
  - rewrite (tracked_Some _ _ _ Hm). by apply Hk.
  - rewrite (tracked_None _ _ Hm). apply (Hk (with_metadata (insert q x) ws)).
    by apply Hins.
Qed.

(** *** Growth *)

Lemma record_extends_refl m : record_extends m m.
Proof. by split_and!. Qed.

Lemma record_extends_trans m1 m2 m3 :
  record_extends m1 m2 → record_extends m2 m3 → record_extends m1 m3.
Proof.
  intros (? & ? & ?) (? & ? & ?). split_and!; try congruence. by etrans.
Qed.

Lemma extends_refl ws : extends ws ws.
Proof.
  split_and!; [done|done|]. intros p m Hm. exists m.
  split; [done|apply record_extends_refl].
Qed.

Lemma extends_trans ws1 ws2 ws3 :
  extends ws1 ws2 → extends ws2 ws3 → extends ws1 ws3.
Proof.
  intros (Hwp & Hl & Hr) (Hwp' & Hl' & Hr'). split_and!.
  - congruence.
  - intros d. etrans; [apply Hl|apply Hl'].
  - intros p m Hm. destruct (Hr p m Hm) as (m2 & Hm2 & He).
    destruct (Hr' p m2 Hm2) as (m3 & Hm3 & He'). exists m3.
    split; [done|]. by apply (record_extends_trans _ m2).
Qed.

Section Growth.
Context (ws0 : Workspace).

Lemma grows_modify f :
  (∀ ws, extends ws (f ws)) → preserves (extends ws0) (modify f).
Proof.
  intros Hf. apply preserves_modify. intros ws H.
  by apply (extends_trans _ ws).
Qed.

Lemma grows_alter f q :
  (∀ m, record_extends m (f m)) →
  preserves (extends ws0) (modify (with_metadata (alter f q))).
Proof.
  intros Hf. apply grows_modify. intros ws. split_and!; [done|done|].
  intros p m Hm. simpl. destruct (decide (q = p)) as [->|Hne].
  - rewrite lookup_alter_eq, Hm. simpl. eauto.
  - rewrite lookup_alter_ne by done. exists m.
    split; [done|apply record_extends_refl].
Qed.

Lemma grows_insert_fresh q x ws :
  extends ws0 ws → file_metadata ws !! q = None →
  extends ws0 (with_metadata (insert q x) ws).
Proof.
  intros H Hq. apply (extends_trans _ ws); [done|].
  split_and!; [done|done|]. intros p m Hm. simpl.
  rewrite lookup_insert_ne by congruence. exists m.
  split; [done|apply record_extends_refl].
Qed.

Lemma grows_activity f : preserves (extends ws0) (modify (with_activity f)).
Proof. apply grows_modify. intros ws. apply (extends_refl ws). Qed.

Lemma grows_disk f : preserves (extends ws0) (modify (with_disk f)).
Proof. apply grows_modify. intros ws. apply (extends_refl ws). Qed.

Lemma grows_state_file s :
  preserves (extends ws0) (modify (with_state_file s)).
Proof. apply grows_modify. intros ws. apply (extends_refl ws). Qed.

Lemma grows_append d e :
  preserves (extends ws0) (modify (with_logs (append_line d e))).
Proof.
  apply grows_modify. intros ws. split_and!; [done| |].
  - intros d'. simpl. unfold append_line.
    destruct (decide (d = d')) as [->|Hne].
    + rewrite lookup_insert_eq. simpl. by apply prefix_app_r.
    + by rewrite lookup_insert_ne.
  - intros p m Hm. exists m. split; [done|apply record_extends_refl].
Qed.

Lemma grows_open_read env q : preserves (extends ws0) (open_read env q).
Proof. intros ws H. unfold exec, open_read. by repeat case_match. Qed.

Lemma grows_open_write env q c : preserves (extends ws0) (open_write env q c).
Proof.
  unfold open_write. preserve_step; [preserve_step | apply grows_disk].
Qed.

Lemma grows_lock_acquire env lp : preserves (extends ws0) (lock_acquire env lp).
Proof. unfold lock_acquire. repeat preserve_step. Qed.

End Growth.

Create HintDb grows.

#[global] Hint Resolve grows_activity grows_disk grows_state_file grows_append
  grows_open_read grows_open_write grows_lock_acquire : grows.
#[global] Hint Extern 1
  (preserves (extends _) (modify (with_metadata (alter _ _)))) =>
  apply grows_alter; intros ?; split_and!; simpl;
    first [done | by apply prefix_app_r] : grows.

Ltac grows := repeat first [ solve [auto with grows] | preserve_step ].

Lemma grows_log_file_event ws0 env q agent action details :
  preserves (extends ws0) (_log_file_event env q agent action details).
Proof.
  unfold _log_file_event. apply preserves_bind_gets. intros ws1 _.
  case_match; grows.
Qed.

#[global] Hint Resolve grows_log_file_event : grows.

Lemma grows_acquire_file ws0 env fp agent w :
  preserves (extends ws0) (acquire_file env fp agent w).
Proof.
  unfold acquire_file. apply preserves_bind_gets. intros ws1 _.
  apply preserves_setdefault; [apply grows_insert_fresh|]. grows.
Qed.

Lemma grows_release_file ws0 env fp agent :
  preserves (extends ws0) (release_file env fp agent).
Proof.
  unfold release_file. apply preserves_bind_gets. intros ws1 _.
  apply preserves_bind_gets. intros ws2 _. repeat case_match; grows.
Qed.

#[global] Hint Resolve grows_acquire_file grows_release_file : grows.

Lemma grows_read_file ws0 env fp agent :
  preserves (extends ws0) (read_file env fp agent).
Proof. unfold read_file. grows. Qed.

Lemma grows_write_file ws0 env fp content agent backup :
  preserves (extends ws0) (write_file env fp content agent backup).
Proof. unfold write_file. grows. Qed.

Lemma grows_handle_file_change ws0 env p :
  preserves (extends ws0) (_handle_file_change env p).
Proof.
  unfold _handle_file_change. apply preserves_bind_gets. intros ws1 _.
  case_match; grows.
Qed.

Lemma grows_handle_file_created ws0 env p :
  preserves (extends ws0) (_handle_file_created env p).
Proof.
  intros ws H. unfold _handle_file_created. rewrite exec_bind_gets.
  destruct (tracked (file_metadata ws) p) eqn:Ht; [done|].
  apply grows_insert_fresh; [done|].
  apply bool_decide_eq_false in Ht. by apply eq_None_not_Some.
Qed.

Lemma grows_save ws0 env : preserves (extends ws0) (save_workspace_state env).
Proof. unfold save_workspace_state. grows. Qed.

Lemma run_step_extends ws0 s ws :
  extends ws0 ws → extends ws0 (run_step s ws).
Proof.
  destruct s as [[]| | |]; simpl.
  - apply grows_acquire_file.
  - apply grows_release_file.
  - apply grows_read_file.
  - apply grows_write_file.
  - apply grows_handle_file_change.
  - apply grows_handle_file_created.
  - apply grows_save.
Qed.


(** ** Records of the reachable workspaces *)

Lemma wf_alter f q :
  (∀ m, well_formed q m → well_formed q (f m)) →
  preserves well_formed_records (modify (with_metadata (alter f q))).
Proof.
  intros Hf. apply preserves_modify. intros ws Hinv p m. simpl.
  destruct (decide (q = p)) as [->|Hne].
  - rewrite lookup_alter_eq.
    destruct (file_metadata ws !! p) as [m0|] eqn:Hm0; [|done].
    intros [= <-]. eauto.
  - rewrite lookup_alter_ne by done. apply Hinv.
Qed.

Lemma wf_insert q x :
  well_formed q x →
  preserves well_formed_records (modify (with_metadata (insert q x))).
Proof.
  intros Hx. apply preserves_modify. intros ws Hinv p m. simpl.
  destruct (decide (q = p)) as [->|Hne].
  - rewrite lookup_insert_eq. by intros [= <-].
  - rewrite lookup_insert_ne by done. apply Hinv.
Qed.

Lemma wf_activity f :
  preserves well_formed_records (modify (with_activity f)).
Proof. by apply preserves_modify. Qed.

Lemma wf_logs f : preserves well_formed_records (modify (with_logs f)).
Proof. by apply preserves_modify. Qed.

Lemma wf_disk f : preserves well_formed_records (modify (with_disk f)).
Proof. by apply preserves_modify. Qed.

Lemma wf_state_file s :
  preserves well_formed_records (modify (with_state_file s)).
Proof. by apply preserves_modify. Qed.

Lemma wf_open_read env q : preserves well_formed_records (open_read env q).
Proof. intros ws H. unfold exec, open_read. by repeat case_match. Qed.

Ltac solve_well_formed :=
  unfold well_formed; simpl;
  first [ intros ? (? & ? & ? & ?) | idtac ];
  split_and!; simpl; first [ done | split; intros; congruence ].

Create HintDb wf.

#[global] Hint Resolve wf_activity wf_logs wf_disk wf_state_file
  wf_open_read : wf.
#[global] Hint Extern 1
  (preserves well_formed_records (modify (with_metadata (alter _ _)))) =>
  apply wf_alter; solve_well_formed : wf.
#[global] Hint Extern 1
  (preserves well_formed_records (modify (with_metadata (insert _ _)))) =>
  apply wf_insert; solve_well_formed : wf.

Ltac wf :=
  repeat first [ solve [auto with wf] | preserve_step | case_match ].

Lemma wf_acquire_file env fp agent w :
  preserves well_formed_records (acquire_file env fp agent w).
Proof. unfold acquire_file, _log_file_event, lock_acquire. wf. Qed.

Lemma wf_release_file env fp agent :
  preserves well_formed_records (release_file env fp agent).
Proof. unfold release_file, _log_file_event. wf. Qed.

Lemma wf_read_file env fp agent :
  preserves well_formed_records (read_file env fp agent).
Proof.
  unfold read_file, _log_file_event.
  preserve_step; [apply wf_acquire_file|].
  preserve_step; [preserve_step|].
  preserve_step; [|apply wf_release_file]. wf.
Qed.

Lemma wf_handle_file_created env p :
  preserves well_formed_records (_handle_file_created env p).
Proof. unfold _handle_file_created. wf. Qed.

Lemma wf_save env : preserves well_formed_records (save_workspace_state env).
Proof. unfold save_workspace_state. wf. Qed.

(** The watcher marks a conflict only on a write-locked record, which has
    a holder. *)
Lemma wf_handle_file_change env p :
  preserves well_formed_records (_handle_file_change env p).
Proof.
  intros ws Hinv. unfold _handle_file_change. rewrite exec_bind_gets.
  destruct (file_metadata ws !! p) as [m|] eqn:Hm; [|done].
  destruct (Hinv p m Hm) as (Hp & Hc & Hs & Hl).
  unfold_monad. simpl. intros q m'.
  destruct (decide (state m = LOCKED_WRITE)) as [Hst|Hst]; simpl;
    (destruct (decide (p = q)) as [<-|Hne];
     [ rewrite ?lookup_alter_eq, Hm; simpl; intros [= <-]
     | rewrite ?lookup_alter_ne by done; apply Hinv ]).
  - split_and!; simpl; try done. split; [|done].
    intros Hnone. apply Hl in Hnone. congruence.
  - by split_and!.
Qed.

(** *** Inside [write_file] *)

Section Writing.
Context (wp p : Path) (a : AgentType).

Lemma writing_alter f :
  (∀ m, locked_by (f m) = locked_by m ∧ path (f m) = path m ∧
        checksum (f m) = checksum m) →
  preserves (writing wp p a) (modify (with_metadata (alter f p))).
Proof.
  intros Hf. apply preserves_modify.
  intros ws (Hwp & (m & Hm & Hlb & Hp & Hc) & Hothers). split_and!; [done| |].
  - exists (f m). simpl. rewrite lookup_alter_eq, Hm. simpl.
    destruct (Hf m) as (-> & -> & ->). done.
  - intros q m' Hq. simpl. rewrite lookup_alter_ne by done. by apply Hothers.
Qed.

Lemma writing_logs f : preserves (writing wp p a) (modify (with_logs f)).
Proof. by apply preserves_modify. Qed.

Lemma writing_disk f : preserves (writing wp p a) (modify (with_disk f)).
Proof. by apply preserves_modify. Qed.

Lemma writing_open_read env q : preserves (writing wp p a) (open_read env q).
Proof. intros ws H. unfold exec, open_read. by repeat case_match. Qed.

Lemma writing_open_write env q c :
  preserves (writing wp p a) (open_write env q c).
Proof.
  unfold open_write. preserve_step; [preserve_step | apply writing_disk].
Qed.

Lemma writing_log_file_event env agent action details :
  preserves (writing wp p a) (_log_file_event env p agent action details).
Proof.
  unfold _log_file_event. apply preserves_bind_gets. intros ws0 _.
  case_match; [|preserve_step].
  repeat first [ apply writing_logs | by apply writing_alter | preserve_step ].
Qed.

End Writing.

(** A successful exclusive acquisition leaves the caller as holder. *)
Lemma acquire_file_true_holder ws env fp a :
  well_formed_records ws →
  result (acquire_file env fp a true) ws = Ret true →
  writing (workspace_path ws) (joinpath (workspace_path ws) fp) a
    (exec (acquire_file env fp a true) ws).
Proof.
  intros Hinv. pose proof (wf_acquire_file env fp a true ws Hinv) as Hwf.
  revert Hwf. unfold result, exec. rewrite acquire_file_ensure.
  pose proof (ensure_tracked_lookup env (joinpath (workspace_path ws) fp) ws)
    as Hm.
  pose proof (ensure_tracked_workspace_path env
                (joinpath (workspace_path ws) fp) ws) as Hwp.
  set (p := joinpath (workspace_path ws) fp) in *.
  set (ws0 := ensure_tracked env p ws) in *.
  set (m0 := default _ _) in Hm.
  unfold acquire_file. unfold_monad. simpl. rewrite Hwp. fold p.
  rewrite (tracked_Some _ _ _ Hm). simpl. rewrite Hm.
  destruct (decide _) as [|_]; [done|].
  destruct (mutex_held _ _); simpl; [done|].
  unfold _log_file_event. unfold_monad. simpl. rewrite Hwp.
  destruct (relative_to p (workspace_path ws)) as [rel|]; simpl; [|done].
  rewrite tracked_alter, (tracked_Some _ _ _ Hm). simpl.
  intros Hwf _. split_and!; [done| |].
  - specialize (Hwf p). simpl in Hwf.
    rewrite !lookup_alter_eq, Hm in Hwf. simpl in Hwf.
    destruct (Hwf _ eq_refl) as (Hp & Hc & _).
    eexists. simpl. rewrite !lookup_alter_eq, Hm. simpl. done.
  - intros q m' _. apply Hwf.
Qed.

(** The holder's release ends the write: every record is well formed
    again, whatever [write_file] did to the record in between. *)
Lemma release_file_ends_writing ws env fp a :
  writing (workspace_path ws) (joinpath (workspace_path ws) fp) a ws →
  well_formed_records (exec (release_file env fp a) ws).
Proof.
  intros (_ & (m & Hm & Hlb & Hp & Hc) & Hothers).
  unfold release_file, _log_file_event. unfold_monad. simpl.
  rewrite Hm. rewrite decide_True by done. simpl.
  set (p := joinpath (workspace_path ws) fp) in *.
  destruct (relative_to p (workspace_path ws)) as [rel|]; simpl;
    rewrite ?tracked_alter, ?(tracked_Some _ _ _ Hm); simpl; intros q m';
    simpl;
    (destruct (decide (q = p)) as [->|Hqp];
     [ rewrite ?lookup_alter_eq, Hm; simpl; intros [= <-]; by split_and!
     | rewrite ?lookup_alter_ne by done; by apply Hothers ]).
Qed.

Lemma wf_write_file env fp content agent backup :
  preserves well_formed_records (write_file env fp content agent backup).
Proof.
  intros ws Hinv.
  pose proof (wf_acquire_file env fp agent true ws Hinv) as Hacq.
  pose proof (acquire_file_true_holder ws env fp agent Hinv) as Hholder.
  unfold write_file.
  pose proof (run_pair (acquire_file env fp agent true) ws) as Hrun.
  set (ws1 := exec (acquire_file env fp agent true) ws) in *.
  destruct (result (acquire_file env fp agent true) ws) as [[|]|e] eqn:Hr.
  - specialize (Hholder eq_refl).
    unfold exec at 1. rewrite (bind_returns _ _ _ _ _ Hrun). simpl.
    change ((?m ws1).2) with (exec m ws1).
    rewrite exec_try_finally.
    assert (workspace_path ws1 = workspace_path ws) as Hwp by apply Hholder.
    set (body := try_except _ _ _).
    assert (writing (workspace_path ws) (joinpath (workspace_path ws) fp)
              agent (exec body ws1)) as Hbody.
    { revert Hholder. generalize ws1. subst body.
      change (preserves (writing (workspace_path ws)
                (joinpath (workspace_path ws) fp) agent)
              (try_except any_exception
                 (let! wp := gets workspace_path in
                  let abs_path := joinpath wp fp in
                  let! d := gets disk in
                  (if backup && exists_on d abs_path then
                     let backup_path :=
                       joinname (default wp (dirs wp "history"))
                                (name fp +:+ "." +:+ isoformat (now env)) in
                     let! old := open_read env abs_path in
                     open_write env backup_path old
                   else ret tt) >>;
                  open_write env abs_path content >>;
                  let! fm := gets file_metadata in
                  (if tracked fm abs_path then
                     modify (with_metadata
                       (alter (λ m, set_state MODIFIED
                                      (set_last_modified (now env) m)) abs_path))
                   else ret tt) >>;
                  _log_file_event env abs_path agent "wrote"
                                  (DSize (String.length content)) >>;
                  ret true)
                 (ret false))).
      preserve_step; [|preserve_step].
      apply preserves_bind_gets. intros ws2 (Hwp2 & _). rewrite Hwp2.
      repeat first
        [ apply writing_open_read | apply writing_open_write
        | apply writing_log_file_event | by apply writing_alter
        | preserve_step ]. }
    apply release_file_ends_writing.
    assert (workspace_path (exec body ws1) = workspace_path ws) as ->
      by apply Hbody.
    done.
  - unfold exec at 1. by rewrite (bind_returns _ _ _ _ _ Hrun).
  - unfold exec at 1. by rewrite (bind_raises _ _ _ _ _ Hrun).
Qed.

Lemma reachable_well_formed ws : reachable ws → well_formed_records ws.
Proof.
  induction 1 as [wp d l|s ws _ IH].
  - intros p m. unfold WorkspaceManager_init, _initialize_workspace_state.
    unfold_monad. simpl. by rewrite lookup_empty.
  - destruct s as [[]| | |]; simpl.
    + by apply wf_acquire_file.
    + by apply wf_release_file.
    + by apply wf_read_file.
    + by apply wf_write_file.
    + by apply wf_handle_file_change.
    + by apply wf_handle_file_created.
    + by apply wf_save.
Qed.

(** X14. In every workspace reachable from a manager started without a state
    file, a record is stored under its own [path], has no checksum, is never
    in state [MODIFIED] between two steps ([write_file] sets it and releases
    at once), and has no holder exactly when it is [AVAILABLE]. *)
Theorem X14_reachable_records_well_formed ws p m :
  reachable ws → file_metadata ws !! p = Some m →
  path m = p ∧ checksum m = None ∧ state m ≠ MODIFIED ∧
  (locked_by m = None ↔ state m = AVAILABLE).
Proof. intros Hr Hm. by apply (reachable_well_formed ws Hr p m). Qed.

Lemma X14_witness :
  path notes_record = joinpath root notes ∧
  checksum notes_record = None ∧
  state notes_record ≠ MODIFIED ∧
  (locked_by notes_record = None ↔ state notes_record = AVAILABLE).
Proof.
  apply (X14_reachable_records_well_formed ws_two_files).
  - apply (reachable_step (StepCreated (env_at 5 false false)
                                       (joinpath root todo)) _
             (reachable_step (StepCall (CallAcquire env_free notes CLAUDE
                                                    true)) _
                (reachable_init root ∅ ∅))).
  - vm_compute. reflexivity.
Defined.

(** ** Frames *)

Section DiskFrame.
Context (wp : Path) (W : list Path) (d : gmap Path string).

Lemma outside_metadata f :
  preserves (disk_outside wp W d) (modify (with_metadata f)).
Proof. by apply preserves_modify. Qed.

Lemma outside_activity f :
  preserves (disk_outside wp W d) (modify (with_activity f)).
Proof. by apply preserves_modify. Qed.

Lemma outside_logs f : preserves (disk_outside wp W d) (modify (with_logs f)).
Proof. by apply preserves_modify. Qed.

Lemma outside_state_file s :
  preserves (disk_outside wp W d) (modify (with_state_file s)).
Proof. by apply preserves_modify. Qed.

Lemma outside_open_read env q : preserves (disk_outside wp W d) (open_read env q).
Proof. intros ws H. unfold exec, open_read. by repeat case_match. Qed.

Lemma outside_open_write env q c :
  q ∈ W → preserves (disk_outside wp W d) (open_write env q c).
Proof.
  intros Hq. unfold open_write. preserve_step; [preserve_step|].
  apply preserves_modify. intros ws [Hwp Hd]. split; [done|].
  intros q' Hq'. simpl. rewrite lookup_insert_ne by congruence. by apply Hd.
Qed.

Lemma outside_lock_acquire env lp :
  preserves (disk_outside wp W d) (lock_acquire env lp).
Proof. unfold lock_acquire. repeat preserve_step. Qed.

#[local] Hint Resolve outside_metadata outside_activity outside_logs
  outside_state_file outside_open_read outside_lock_acquire : frame.

Lemma outside_log_file_event env q agent action details :
  preserves (disk_outside wp W d) (_log_file_event env q agent action details).
Proof. unfold _log_file_event. repeat first [case_match | frame]. Qed.

#[local] Hint Resolve outside_log_file_event : frame.

Lemma outside_acquire_file env fp agent w :
  preserves (disk_outside wp W d) (acquire_file env fp agent w).
Proof. unfold acquire_file. frame. Qed.

Lemma outside_release_file env fp agent :
  preserves (disk_outside wp W d) (release_file env fp agent).
Proof. unfold release_file. repeat first [case_match | frame]. Qed.

#[local] Hint Resolve outside_acquire_file outside_release_file : frame.

Lemma outside_read_file env fp agent :
  preserves (disk_outside wp W d) (read_file env fp agent).
Proof. unfold read_file. frame. Qed.

Lemma outside_write_file env fp content agent backup :
  joinpath wp fp ∈ W →
  (backup = true → backup_path env wp fp ∈ W) →
  preserves (disk_outside wp W d) (write_file env fp content agent backup).
Proof.
  intros Hp Hb. unfold write_file.
  preserve_step; [frame|]. preserve_step; [frame|].
  preserve_step; [|frame]. preserve_step; [|frame].
  apply preserves_bind_gets. intros ws0 [Hwp _]. rewrite Hwp.
  preserve_step; [frame|]. preserve_step.
  { destruct backup; simpl; [|frame].
    preserve_step; [|frame]. preserve_step; [frame|].
    apply outside_open_write. by apply Hb. }
  preserve_step; [by apply outside_open_write|]. frame.
Qed.

Lemma outside_handle_file_change env p :
  preserves (disk_outside wp W d) (_handle_file_change env p).
Proof. unfold _handle_file_change. repeat first [case_match | frame]. Qed.

Lemma outside_handle_file_created env p :
  preserves (disk_outside wp W d) (_handle_file_created env p).
Proof. unfold _handle_file_created. frame. Qed.

Lemma outside_save env :
  preserves (disk_outside wp W d) (save_workspace_state env).
Proof. unfold save_workspace_state. frame. Qed.

End DiskFrame.



(** *** Records of other paths *)

Section RecordFrame.
Context (wp p : Path) (v : option FileMetadata).

Lemma keeps_state_file s :
  preserves (framed wp p v) (modify (with_state_file s)).
Proof. apply preserves_modify. by intros ws [? ?]. Qed.

Lemma keeps_handle_file_change env q :
  q ≠ p → preserves (framed wp p v) (_handle_file_change env q).
Proof.
  intros Hq. unfold _handle_file_change.
  repeat first [ case_match | by apply keeps_alter | preserve_step ].
Qed.

Lemma keeps_handle_file_created env q :
  q ≠ p → preserves (framed wp p v) (_handle_file_created env q).
Proof.
  intros Hq. unfold _handle_file_created.
  repeat first [ by apply keeps_insert | preserve_step ].
Qed.

Lemma keeps_save env : preserves (framed wp p v) (save_workspace_state env).
Proof.
  unfold save_workspace_state.
  repeat first [ apply keeps_state_file | preserve_step ].
Qed.

End RecordFrame.

(** X16. Frame: a step that works on one path (a call on it, a watcher
    notification for it) leaves the record of every other path exactly as it
    was; saving the state changes no record. *)
Theorem X16_step_leaves_other_records s ws p :
  step_target (workspace_path ws) s ≠ Some p →
  file_metadata (run_step s ws) !! p = file_metadata ws !! p.
Proof.
  intros Hp.
  assert (framed (workspace_path ws) p (file_metadata ws !! p) ws) as H0
    by done.
  assert (framed (workspace_path ws) p (file_metadata ws !! p) (run_step s ws))
    as [_ H]; [|done].
  revert H0.
  destruct s as [[env fp a w|env fp a|env fp a|env fp c a backup]
                | env q | env q | env]; simpl in *.
  - apply keeps_acquire_file. congruence.
  - apply keeps_release_file. congruence.
  - apply keeps_read_file. congruence.
  - apply keeps_write_file. congruence.
  - apply keeps_handle_file_change. congruence.
  - apply keeps_handle_file_created. congruence.
  - apply keeps_save.
Qed.

Lemma X16_witness :
  file_metadata (run_step (StepCall (CallAcquire env_free todo GEMINI true))
                          ws_writer) !! joinpath root notes
  = file_metadata ws_writer !! joinpath root notes.
Proof.
  apply (X16_step_leaves_other_records
           (StepCall (CallAcquire env_free todo GEMINI true)) ws_writer).
  intros Heq. vm_compute in Heq. discriminate Heq.
Defined.

(** *** Activity of other agents *)

Section ActivityFrame.
Context (wp : Path) (b : AgentType) (act : Activity).

Lemma others_metadata f :
  preserves (activity_of wp b act) (modify (with_metadata f)).
Proof. by apply preserves_modify. Qed.

Lemma others_logs f : preserves (activity_of wp b act) (modify (with_logs f)).
Proof. by apply preserves_modify. Qed.

Lemma others_disk f : preserves (activity_of wp b act) (modify (with_disk f)).
Proof. by apply preserves_modify. Qed.

Lemma others_state_file s :
  preserves (activity_of wp b act) (modify (with_state_file s)).
Proof. by apply preserves_modify. Qed.

Lemma others_update a f :
  a ≠ b →
  preserves (activity_of wp b act) (modify (with_activity (update_activity a f))).
Proof.
  intros Hne. apply preserves_modify. intros ws [Hwp Hact]. split; [done|].
  simpl. unfold update_activity. by rewrite decide_False.
Qed.

Lemma others_open_read env q : preserves (activity_of wp b act) (open_read env q).
Proof. intros ws H. unfold exec, open_read. by repeat case_match. Qed.

Lemma others_open_write env q c :
  preserves (activity_of wp b act) (open_write env q c).
Proof.
  unfold open_write. preserve_step; [preserve_step | apply others_disk].
Qed.

Lemma others_lock_acquire env lp :
  preserves (activity_of wp b act) (lock_acquire env lp).
Proof. unfold lock_acquire. repeat preserve_step. Qed.

#[local] Hint Resolve others_metadata others_logs others_disk
  others_state_file others_update others_open_read others_open_write
  others_lock_acquire : frame.

Lemma others_log_file_event env q agent action details :
  preserves (activity_of wp b act) (_log_file_event env q agent action details).
Proof. unfold _log_file_event. repeat first [case_match | frame]. Qed.

#[local] Hint Resolve others_log_file_event : frame.

Lemma others_acquire_file env fp a w :
  a ≠ b → preserves (activity_of wp b act) (acquire_file env fp a w).
Proof. intros Hne. unfold acquire_file. frame. Qed.

Lemma others_release_file env fp a :
  a ≠ b → preserves (activity_of wp b act) (release_file env fp a).
Proof.
  intros Hne. unfold release_file. repeat first [case_match | frame].
Qed.

#[local] Hint Resolve others_acquire_file others_release_file : frame.

Lemma others_read_file env fp a :
  a ≠ b → preserves (activity_of wp b act) (read_file env fp a).
Proof. intros Hne. unfold read_file. frame. Qed.

Lemma others_write_file env fp content a backup :
  a ≠ b → preserves (activity_of wp b act) (write_file env fp content a backup).
Proof. intros Hne. unfold write_file. frame. Qed.

Lemma others_handle_file_change env p :
  preserves (activity_of wp b act) (_handle_file_change env p).
Proof. unfold _handle_file_change. repeat first [case_match | frame]. Qed.

Lemma others_handle_file_created env p :
  preserves (activity_of wp b act) (_handle_file_created env p).
Proof. unfold _handle_file_created. frame. Qed.

Lemma others_save env :
  preserves (activity_of wp b act) (save_workspace_state env).
Proof. unfold save_workspace_state. frame. Qed.

End ActivityFrame.

(** X17. The activity record of an agent changes only through that agent's
    own calls: calls of other agents, watcher notifications and saves leave
    its [last_active] and [current_files] as they were. *)
Theorem X17_activity_changes_with_own_calls s ws b :
  (∀ c, s = StepCall c → call_agent c ≠ b) →
  agent_activity (run_step s ws) b = agent_activity ws b.
Proof.
  intros Hb.
  assert (activity_of (workspace_path ws) b (agent_activity ws b) ws) as H0
    by done.
  assert (activity_of (workspace_path ws) b (agent_activity ws b)
            (run_step s ws)) as [_ H]; [|done].
  revert H0.
  destruct s as [c | env q | env q | env]; simpl.
  - specialize (Hb c eq_refl).
    destruct c as [env fp a w|env fp a|env fp a|env fp c a backup]; simpl in *.
    + by apply others_acquire_file.
    + by apply others_release_file.
    + by apply others_read_file.
    + by apply others_write_file.
  - apply others_handle_file_change.
  - apply others_handle_file_created.
  - apply others_save.
Qed.

Lemma X17_witness :
  agent_activity (run_step (StepCall (CallAcquire env_free todo GEMINI true))
                           ws_writer) CLAUDE
  = agent_activity ws_writer CLAUDE.
Proof.
  apply (X17_activity_changes_with_own_calls
           (StepCall (CallAcquire env_free todo GEMINI true)) ws_writer CLAUDE).
  intros c [= <-]. discriminate.
Defined.

(** ** Locks and [current_files] *)

Lemma listed_alter f q :
  (∀ m, locked_by (f m) = locked_by m) →
  preserves holders_listed (modify (with_metadata (alter f q))).
Proof.
  intros Hf. apply preserves_modify. intros ws Hinv p a. unfold holder_at.
  simpl. intros Hh. apply Hinv. unfold holder_at. revert Hh.
  destruct (decide (q = p)) as [->|Hne].
  - rewrite lookup_alter_eq. destruct (file_metadata ws !! p); simpl; [|done].
    by rewrite Hf.
  - by rewrite lookup_alter_ne.
Qed.

Lemma listed_insert_new q t :
  preserves holders_listed
    (modify (with_metadata (insert q (new_metadata t q)))).
Proof.
  apply preserves_modify. intros ws Hinv p a. unfold holder_at. simpl.
  destruct (decide (q = p)) as [->|Hne].
  - by rewrite lookup_insert_eq.
  - rewrite lookup_insert_ne by done. apply Hinv.
Qed.

Lemma listed_logs f : preserves holders_listed (modify (with_logs f)).
Proof. by apply preserves_modify. Qed.

Lemma listed_disk f : preserves holders_listed (modify (with_disk f)).
Proof. by apply preserves_modify. Qed.

Lemma listed_state_file s :
  preserves holders_listed (modify (with_state_file s)).
Proof. by apply preserves_modify. Qed.

Lemma listed_open_read env q : preserves holders_listed (open_read env q).
Proof. intros ws H. unfold exec, open_read. by repeat case_match. Qed.

Create HintDb listed.

#[global] Hint Resolve listed_insert_new listed_logs listed_disk
  listed_state_file listed_open_read : listed.
#[global] Hint Extern 1
  (preserves holders_listed (modify (with_metadata (alter _ _)))) =>
  apply listed_alter; intros ?; reflexivity : listed.

Ltac listed :=
  repeat first [ solve [auto with listed] | preserve_step | case_match ].

Lemma listed_log_file_event env q agent action details :
  preserves holders_listed (_log_file_event env q agent action details).
Proof. unfold _log_file_event. listed. Qed.

#[global] Hint Resolve listed_log_file_event : listed.

(** Taking the lock and listing the path, the two assignments of
    [acquire_file] that belong together *)
Lemma listed_lock_taken env p a (st : option FileState) ws :
  holders_listed ws →
  (st = None → ∀ b, holder_at ws p = Some (Some b) → b = a) →
  holders_listed
    (with_activity (update_activity a (λ act,
        mkActivity (Some (now env)) ({[p]} ∪ current_files act)))
       (match st with
        | Some s => with_metadata (alter (set_lock s (Some a)) p) ws
        | None => ws
        end)).
Proof.
  intros Hinv Hst q b Hh. simpl.
  assert (q ∈ current_files
                (update_activity a (λ act,
                   mkActivity (Some (now env)) ({[p]} ∪ current_files act))
                   (agent_activity ws) b)) as Hgoal; [|by destruct st].
  unfold update_activity.
  destruct (decide (q = p)) as [->|Hne].
  - assert (b = a) as ->.
    { destruct st as [s|]; [|by apply Hst].
      revert Hh. unfold holder_at. simpl. rewrite lookup_alter_eq.
      destruct (file_metadata ws !! p); simpl; congruence. }
    rewrite decide_True by done. simpl.
    apply elem_of_union. left. by apply elem_of_singleton_2.
  - assert (holder_at ws q = Some (Some b)) as Hq.
    { destruct st as [s|]; [|done]. revert Hh. unfold holder_at. simpl.
      by rewrite lookup_alter_ne. }
    apply Hinv in Hq. destruct (decide (a = b)) as [->|]; [|done].
    simpl. apply elem_of_union. by right.
Qed.

Lemma listed_lock_released p a ws :
  holders_listed ws →
  holders_listed
    (with_activity (update_activity a (λ act,
        mkActivity (last_active act) (current_files act ∖ {[p]})))
       (with_metadata (alter (set_lock AVAILABLE None) p) ws)).
Proof.
  intros Hinv q b. unfold holder_at. simpl.
  destruct (decide (p = q)) as [<-|Hne].
  - rewrite lookup_alter_eq. by destruct (file_metadata ws !! p).
  - rewrite lookup_alter_ne by done. intros Hq. apply Hinv in Hq.
    unfold update_activity. destruct (decide (a = b)) as [->|]; [|done].
    simpl. apply elem_of_difference. split; [done|].
    intros ?%elem_of_singleton_1. congruence.
Qed.

Lemma listed_acquire_file env fp agent w :
  preserves holders_listed (acquire_file env fp agent w).
Proof.
  unfold acquire_file. apply preserves_bind_gets. intros ws0 _.
  set (p := joinpath (workspace_path ws0) fp).
  preserve_step; [listed|]. preserve_step; [listed|].
  intros ws Hinv. unfold exec, bind, get_metadata.
  destruct (file_metadata ws !! p) as [m|] eqn:Hm; [|done].
  destruct (decide _) as [|Hguard]; [done|].
  assert (∀ st (k : M bool),
            preserves holders_listed k →
            (st = None → state m = LOCKED_WRITE) →
            holders_listed
              (exec k (with_activity (update_activity agent (λ act,
                  mkActivity (Some (now env)) ({[p]} ∪ current_files act)))
                 (match st with
                  | Some s =>
                      with_metadata (alter (set_lock s (Some agent)) p) ws
                  | None => ws
                  end)))) as Hstep.
  { intros st k Hk Hst. apply Hk. apply listed_lock_taken; [done|].
    intros -> b. unfold holder_at. rewrite Hm. simpl. intros [= Hb].
    destruct (decide (b = agent)) as [|Hne]; [done|].
    destruct Hguard. split; [by apply Hst|]. congruence. }
  assert (preserves holders_listed
            (_log_file_event env p agent "acquired" (DWrite w) >>; ret true))
    as Hk by listed.
  unfold try_except, bind, lock_acquire, modify, ret, raise.
  destruct w.
  - destruct (mutex_held _ _); simpl; [done|].
    specialize (Hstep (Some LOCKED_WRITE) _ Hk). unfold exec, bind in Hstep.
    simpl in Hstep.
    destruct (_log_file_event _ _ _ _ _ _) as [[[]|e] ws']; simpl in *;
      [by apply Hstep|].
    destruct e; simpl; by apply Hstep.
  - destruct (decide (state m ≠ LOCKED_WRITE)) as [Hst|Hst]; simpl.
    + specialize (Hstep (Some LOCKED_READ) _ Hk). unfold exec, bind in Hstep.
      simpl in Hstep.
      destruct (_log_file_event _ _ _ _ _ _) as [[[]|e] ws']; simpl in *;
        [by apply Hstep|].
      destruct e; simpl; by apply Hstep.
    + specialize (Hstep None _ Hk). unfold exec, bind in Hstep.
      simpl in Hstep.
      assert (state m = LOCKED_WRITE) as Hlw
        by (destruct (decide (state m = LOCKED_WRITE)); [done|by destruct Hst]).
      destruct (_log_file_event _ _ _ _ _ _) as [[[]|e] ws']; simpl in *;
        [by apply Hstep|].
      destruct e; simpl; by apply Hstep.
Qed.

Lemma listed_release_file env fp agent :
  preserves holders_listed (release_file env fp agent).
Proof.
  unfold release_file. apply preserves_bind_gets. intros ws0 _.
  set (p := joinpath (workspace_path ws0) fp).
  apply preserves_bind_gets. intros ws1 _.
  destruct (file_metadata ws1 !! p) as [m|]; [|listed].
  destruct (decide _); [|listed].
  intros ws Hinv.
  pose proof (listed_log_file_event env p agent "released" DEmpty _
                (listed_lock_released p agent ws Hinv)) as H.
  exact H.
Qed.

#[global] Hint Resolve listed_acquire_file listed_release_file : listed.

Lemma listed_read_file env fp agent :
  preserves holders_listed (read_file env fp agent).
Proof. unfold read_file. listed. Qed.

Lemma listed_write_file env fp content agent backup :
  preserves holders_listed (write_file env fp content agent backup).
Proof. unfold write_file, open_write. listed. Qed.

Lemma listed_handle_file_change env p :
  preserves holders_listed (_handle_file_change env p).
Proof. unfold _handle_file_change. listed. Qed.

Lemma listed_handle_file_created env p :
  preserves holders_listed (_handle_file_created env p).
Proof. unfold _handle_file_created. listed. Qed.

Lemma listed_save env : preserves holders_listed (save_workspace_state env).
Proof. unfold save_workspace_state. listed. Qed.

Lemma reachable_holders_listed ws : reachable ws → holders_listed ws.
Proof.
  induction 1 as [wp d l|s ws _ IH].
  - intros p a. unfold holder_at, WorkspaceManager_init,
      _initialize_workspace_state. unfold_monad. simpl.
    by rewrite lookup_empty.
  - destruct s as [[]| | |]; simpl.
    + by apply listed_acquire_file.
    + by apply listed_release_file.
    + by apply listed_read_file.
    + by apply listed_write_file.
    + by apply listed_handle_file_change.
    + by apply listed_handle_file_created.
    + by apply listed_save.
Qed.



(** ** The audit log query for every limit *)

Lemma scan_lines_first agent_value limit lines :
  (limit ≤ 1)%Z →
  scan_lines agent_value limit lines [] =
  match matching agent_value lines with
  | [] => inr []
  | e :: _ => inl [e]
  end.
Proof.
  intros Hle. induction lines as [|e lines IH]; [done|].
  unfold matching. rewrite filter_cons. simpl.
  destruct (decide (ev_agent e = agent_value)); [|done].
  by rewrite decide_True by (simpl; lia).
Qed.

Lemma scan_files_first agent_value limit files :
  (limit ≤ 1)%Z →
  scan_files agent_value limit files [] =
  take 1 (concat ((λ f, matching agent_value f.2) <$> files)).
Proof.
  intros Hle. induction files as [|f files IH]; [done|]. simpl.
  rewrite scan_lines_first by done.
  destruct (matching agent_value f.2) as [|e es]; [done|]. done.
Qed.

Lemma recent_events_closed_form l agent limit :
  recent_events l agent limit =
  take (Z.to_nat (Z.max 1 limit)) (candidate_events l agent).
Proof.
  unfold candidate_events. destruct (decide (1 ≤ limit)%Z) as [Hpos|Hnon].
  - rewrite Z.max_r by done. apply recent_events_spec. lia.
  - rewrite Z.max_l by lia. unfold recent_events.
    rewrite scan_files_first by lia. done.
Qed.

Lemma log_files_perm l : log_files l ≡ₚ map_to_list l.
Proof. unfold log_files. apply merge_sort_Permutation. Qed.

Lemma newer_first_trans : Transitive newer_first.
Proof. intros x y z. unfold newer_first. lia. Qed.

Lemma newer_first_total : Total newer_first.
Proof. intros x y. unfold newer_first. lia. Qed.

Lemma log_files_sorted l : StronglySorted newer_first (log_files l).
Proof.
  unfold log_files. apply Sorted_StronglySorted; [apply newer_first_trans|].
  apply Sorted_merge_sort. apply newer_first_total.
Qed.

Lemma StronglySorted_lookup_lt {A} (R : relation A) (xs : list A) i j x y :
  StronglySorted R xs → xs !! i = Some x → xs !! j = Some y → i < j → R x y.
Proof.
  intros Hs. revert i j. induction Hs as [|z xs Hs IH Hall]; intros i j.
  { by rewrite lookup_nil. }
  destruct i as [|i], j as [|j]; simpl; try lia.
  - intros [= <-] Hy _. rewrite Forall_forall in Hall.
    apply Hall. by apply list_elem_of_lookup_2 in Hy.
  - intros Hx Hy Hlt. apply (IH i j); [done..|lia].
Qed.

(** A partition among the first [n] of the sorted list has fewer than [n]
    newer days. *)
Lemma log_files_take_newest l n d lines :
  (d, lines) ∈ take n (log_files l) →
  l !! d = Some lines ∧ size (newer_days l d) < n.
Proof.
  intros Hin.
  apply list_elem_of_lookup_1 in Hin as [i Hi].
  apply lookup_take_Some in Hi as [Hi Hlt].
  split.
  { apply elem_of_map_to_list. rewrite <-log_files_perm.
    by apply list_elem_of_lookup_2 in Hi. }
  assert (newer_days l d ⊆ list_to_set (take i (log_files l)).*1) as Hsub.
  { intros d' [Hnew Hdom]%elem_of_filter.
    apply elem_of_dom in Hdom as [lines' Hd'].
    apply elem_of_map_to_list in Hd'. rewrite <-log_files_perm in Hd'.
    apply list_elem_of_lookup_1 in Hd' as [j Hj].
    apply elem_of_list_to_set, list_elem_of_fmap.
    exists (d', lines'). split; [done|].
    apply list_elem_of_lookup_2 with j. apply lookup_take_Some.
    split; [done|].
    destruct (decide (j < i)) as [|Hge]; [done|].
    destruct (decide (j = i)) as [->|Hne].
    - rewrite Hi in Hj. injection Hj as -> ->. lia.
    - pose proof (StronglySorted_lookup_lt newer_first _ i j _ _
                    (log_files_sorted l) Hi Hj) as Hord.
      unfold newer_first in Hord. simpl in Hord. lia. }
  apply subseteq_size in Hsub.
  rewrite size_list_to_set in Hsub.
  - rewrite length_fmap, length_take in Hsub. lia.
  - rewrite fmap_take. apply sublist_NoDup with (log_files l).*1.
    + rewrite log_files_perm. apply NoDup_fst_map_to_list.
    + apply sublist_take.
Qed.

(** X19. The audit log query for every limit: it returns the first
    max(1, limit) events of the agent, read from the three newest
    partitions in file order; so it never returns more than max(1, limit)
    events, and with a limit of zero or less it still returns the first
    event it meets. *)
Theorem X19_recent_events_for_every_limit l agent limit :
  recent_events l agent limit =
    take (Z.to_nat (Z.max 1 limit)) (candidate_events l agent) ∧
  (Z.of_nat (length (recent_events l agent limit)) ≤ Z.max 1 limit)%Z ∧
  ((limit ≤ 0)%Z →
   recent_events l agent limit = take 1 (candidate_events l agent)).
Proof.
  rewrite recent_events_closed_form. split_and!; [done| |].
  - rewrite length_take. lia.
  - intros Hle. by rewrite Z.max_l by lia.
Qed.

(** X20. Every event the query returns belongs to the agent asked for and
    stands in a day partition of the log that has fewer than three newer
    partitions. *)
Theorem X20_recent_events_origin l agent limit e :
  e ∈ recent_events l agent limit →
  ev_agent e = AgentType_value agent ∧
  ∃ d lines, l !! d = Some lines ∧ e ∈ lines ∧ size (newer_days l d) < 3.
Proof.
  rewrite recent_events_closed_form. intros Hin%subseteq_take.
  unfold candidate_events in Hin.
  apply list_elem_of_In, in_concat in Hin as (es & Hes & He).
  apply list_elem_of_In, list_elem_of_fmap in Hes as ([d lines] & -> & Hf).
  apply list_elem_of_In, list_elem_of_filter in He as [Hagent He].
  split; [done|]. exists d, lines. simpl in He.
  destruct (log_files_take_newest l 3 d lines Hf) as [Hd Hnew]. done.
Qed.

Lemma X20_witness :
  ev_agent (claude_event 1 "acquired" (DWrite false))
    = AgentType_value CLAUDE ∧
  ∃ d lines, logs ws_ten !! d = Some lines ∧
             claude_event 1 "acquired" (DWrite false) ∈ lines ∧
             size (newer_days (logs ws_ten) d) < 3.
Proof.
  apply (X20_recent_events_origin (logs ws_ten) CLAUDE 5).
  vm_compute. constructor.
Defined.

(** ** Recovery, lock files and the workspace status *)

Lemma restore_files_origin d files acc p m :
  restore_files d files acc !! p = Some m →
  acc !! p = Some m ∨
  (exists_on d p = true ∧ path m = p ∧
   ∃ fd, fd ∈ files ∧ fd_path fd = p ∧
         FileState_of_value (fd_state fd) = Some (state m) ∧
         parse_locked_by (fd_locked_by fd) = Some (locked_by m) ∧
         last_modified m = fd_last_modified fd ∧
         checksum m = fd_checksum fd ∧
         history m = fd_history fd).
Proof.
  revert acc. induction files as [|fd files IH]; intros acc; simpl; [by left|].
  destruct (exists_on d (fd_path fd)) eqn:Hex.
  - destruct (FileState_of_value (fd_state fd)) as [st|] eqn:Hst; [|by left].
    destruct (parse_locked_by (fd_locked_by fd)) as [lb|] eqn:Hlb; [|by left].
    intros [Hacc|(Hp & Hpath & fd' & Hin & Hrest)]%IH.
    + destruct (decide (fd_path fd = p)) as [Heq|Hne].
      * rewrite Heq, lookup_insert_eq in Hacc. injection Hacc as <-.
        right. simpl. split_and!; [by rewrite <-Heq|done|].
        exists fd. split_and!; try done. apply elem_of_cons. by left.
      * rewrite lookup_insert_ne in Hacc by done. by left.
    + right. split_and!; [done..|]. exists fd'. split; [|done].
      apply elem_of_cons. by right.
  - intros [Hacc|(Hp & Hpath & fd' & Hin & Hrest)]%IH; [by left|].
    right. split_and!; [done..|]. exists fd'. split; [|done].
    apply elem_of_cons. by right.
Qed.

Lemma restore_files_stops d pre bad post acc :
  exists_on d (fd_path bad) = true → invalid_entry bad →
  restore_files d (pre ++ bad :: post) acc = restore_files d pre acc.
Proof.
  intros Hex Hbad. revert acc.
  induction pre as [|fd pre IH]; intros acc; simpl.
  - rewrite Hex. destruct Hbad as [-> | Hlb]; [done|].
    rewrite Hlb. by destruct (FileState_of_value _).
  - destruct (exists_on d (fd_path fd)); [|apply IH].
    destruct (FileState_of_value (fd_state fd)); [|done].
    destruct (parse_locked_by (fd_locked_by fd)); [apply IH|done].
Qed.

Lemma restore_files_skips d pre gone post acc :
  exists_on d (fd_path gone) = false →
  restore_files d (pre ++ gone :: post) acc =
  restore_files d (pre ++ post) acc.
Proof.
  intros Hex. revert acc.
  induction pre as [|fd pre IH]; intros acc; simpl.
  - by rewrite Hex.
  - destruct (exists_on d (fd_path fd)); [|apply IH].
    destruct (FileState_of_value (fd_state fd)); [|done].
    destruct (parse_locked_by (fd_locked_by fd)); [apply IH|done].
Qed.

(** X21. Whatever the state file holds, a manager that starts tracks a path
    only if the file exists, under a record whose [path] is the key, and
    whose state, holder and history are those of an entry of the snapshot
    (so locks survive a restart); without a readable snapshot it tracks
    nothing. *)
Theorem X21_recovery_tracks_existing_files wp d l sf p m :
  file_metadata (WorkspaceManager_init wp d l sf) !! p = Some m →
  exists_on d p = true ∧ path m = p ∧
  ∃ snap fd, sf = Some (Parsed snap) ∧ fd ∈ snap_files snap ∧
    fd_path fd = p ∧
    FileState_of_value (fd_state fd) = Some (state m) ∧
    parse_locked_by (fd_locked_by fd) = Some (locked_by m) ∧
    history m = fd_history fd.
Proof.
  unfold WorkspaceManager_init, _initialize_workspace_state.
  unfold_monad. simpl. destruct sf as [[|snap]|]; simpl.
  - by rewrite lookup_empty.
  - intros [Hacc|(Hex & Hp & fd & Hin & Hfd & Hst & Hlb & _ & _ & Hh)]
      %restore_files_origin.
    { by rewrite lookup_empty in Hacc. }
    split_and!; [done..|]. exists snap, fd. by split_and!.
  - by rewrite lookup_empty.
Qed.

Lemma X21_witness :
  exists_on disk_three (joinpath root todo) = true ∧
  path todo_record = joinpath root todo.
Proof.
  destruct (X21_recovery_tracks_existing_files root disk_three ∅
              (Some (Parsed (mkSnapshot (mkTime 20240101 9)
                                        [notes_entry; todo_entry])))
              (joinpath root todo) todo_record) as (Hex & Hp & _).
  - vm_compute. reflexivity.
  - split; [exact Hex|exact Hp].
Defined.

(** X22. An entry of the snapshot whose file exists but whose state or agent
    name is not a value of the enumeration ends the recovery: the entries
    before it are restored, every entry after it is lost. *)
Theorem X22_recovery_stops_at_invalid_entry wp d l t pre bad post :
  exists_on d (fd_path bad) = true → invalid_entry bad →
  file_metadata (WorkspaceManager_init wp d l
     (Some (Parsed (mkSnapshot t (pre ++ bad :: post))))) =
  file_metadata (WorkspaceManager_init wp d l
     (Some (Parsed (mkSnapshot t pre)))).
Proof.
  intros Hex Hbad. unfold WorkspaceManager_init, _initialize_workspace_state.
  unfold_monad. simpl. by apply restore_files_stops.
Qed.

Lemma X22_witness :
  file_metadata (WorkspaceManager_init root disk_three ∅
     (Some (Parsed (mkSnapshot (mkTime 20240101 9)
                               ([notes_entry] ++ bad_entry :: [todo_entry]))))) =
  file_metadata (WorkspaceManager_init root disk_three ∅
     (Some (Parsed (mkSnapshot (mkTime 20240101 9) [notes_entry])))).
Proof.
  apply (X22_recovery_stops_at_invalid_entry root disk_three ∅
           (mkTime 20240101 9) [notes_entry] bad_entry [todo_entry]).
  - vm_compute. reflexivity.
  - left. vm_compute. reflexivity.
Defined.

(** X23. An entry of the snapshot whose file no longer exists is skipped
    without being parsed: recovery goes on as if the entry were not
    there. *)
Theorem X23_recovery_skips_missing_files wp d l t pre gone post :
  exists_on d (fd_path gone) = false →
  file_metadata (WorkspaceManager_init wp d l
     (Some (Parsed (mkSnapshot t (pre ++ gone :: post))))) =
  file_metadata (WorkspaceManager_init wp d l
     (Some (Parsed (mkSnapshot t (pre ++ post))))).
Proof.
  intros Hex. unfold WorkspaceManager_init, _initialize_workspace_state.
  unfold_monad. simpl. by apply restore_files_skips.
Qed.

Lemma X23_witness :
  file_metadata (WorkspaceManager_init root disk_three ∅
     (Some (Parsed (mkSnapshot (mkTime 20240101 9)
                               ([notes_entry] ++ gone_entry :: [todo_entry]))))) =
  file_metadata (WorkspaceManager_init root disk_three ∅
     (Some (Parsed (mkSnapshot (mkTime 20240101 9)
                               ([notes_entry] ++ [todo_entry]))))).
Proof.
  apply (X23_recovery_skips_missing_files root disk_three ∅
           (mkTime 20240101 9) [notes_entry] gone_entry [todo_entry]).
  vm_compute. reflexivity.
Defined.

(** *** Lock files *)

Lemma joinname_inj base s1 s2 : joinname base s1 = joinname base s2 → s1 = s2.
Proof.
  unfold joinname. intros [= Heq]. apply app_inv_head in Heq. congruence.
Qed.

(** X24. Two paths use the same lock file exactly when their final components
    are equal: paths with different names never contend for a lock
    file. *)
Theorem X24_lock_file_shared_iff_same_name wp fp1 fp2 :
  lock_path wp fp1 = lock_path wp fp2 ↔ name fp1 = name fp2.
Proof.
  unfold lock_path. split; [|by intros ->].
  intros Heq%joinname_inj. by apply string_app_inv_tail in Heq.
Qed.

(** *** Workspace status *)

Lemma held_by_spec ws a p :
  p ∈ held_by ws a ↔ holder_at ws p = Some (Some a).
Proof.
  unfold held_by. rewrite elem_of_dom, holder_at_Some. split.
  - intros [m [Hm Hlb]%map_lookup_filter_Some]. eauto.
  - intros (m & Hm & Hlb). exists m. by apply map_lookup_filter_Some.
Qed.

Lemma get_agent_view_exec ws agent : exec (get_agent_view agent) ws = ws.
Proof.
  unfold exec, get_agent_view, _get_current_context, _get_recent_events.
  unfold_monad. simpl. by destruct (view_loop _ _ _ _ _) as [[??]|].
Qed.

Lemma handle_workspace_status_run include_files include_changes ws st :
  result (_handle_workspace_status include_files include_changes) ws = Ret st →
  ∃ view, result (get_agent_view CLAUDE) ws = Ret view ∧
    st = mkStatus (workspace_path ws)
           ((λ a, (AgentType_value a, agent_status (agent_activity ws a)))
              <$> [CLAUDE; GEMINI; HUMAN])
           (if include_files
            then Some (shared_files view ++ locked_files view)%list else None)
           (if include_changes then Some (recent_changes view) else None).
Proof.
  unfold _handle_workspace_status, result.
  pose proof (get_agent_view_exec ws CLAUDE) as Hex.
  pose proof (run_pair (get_agent_view CLAUDE) ws) as Hrun.
  rewrite Hex in Hrun.
  destruct (result (get_agent_view CLAUDE) ws) as [view|e] eqn:Hr.
  - rewrite (bind_returns _ _ _ _ _ Hrun). unfold_monad. simpl.
    intros [= <-]. by exists view.
  - by rewrite (bind_raises _ _ _ _ _ Hrun).
Qed.

(** X25. The workspace status of the server ([_handle_workspace_status], which
    asks for the view of CLAUDE): with the file list included, a tracked
    path is listed exactly when CLAUDE is its holder or it is [AVAILABLE];
    in a reachable workspace a path held by another agent is not
    listed. *)
Theorem X25_status_lists_available_and_own_files ws include_changes st p m :
  result (_handle_workspace_status true include_changes) ws = Ret st →
  file_metadata ws !! p = Some m →
  ∃ rel files, relative_to p (workspace_path ws) = Some rel ∧
    status_files st = Some files ∧
    (rel ∈ fi_path <$> files ↔
       locked_by m = Some CLAUDE ∨ state m = AVAILABLE) ∧
    (reachable ws → ∀ b, b ≠ CLAUDE → locked_by m = Some b →
       rel ∉ fi_path <$> files).
Proof.
  intros (view & Hview & ->)%handle_workspace_status_run Hm.
  destruct (agent_view_lists ws CLAUDE view p m Hview Hm)
    as (rel & Hrel & Hl & Hs).
  exists rel, (shared_files view ++ locked_files view)%list. simpl.
  assert (rel ∈ fi_path <$> (shared_files view ++ locked_files view)%list ↔
          locked_by m = Some CLAUDE ∨ state m = AVAILABLE) as Hiff.
  { rewrite fmap_app, elem_of_app, Hl, Hs. split.
    - intros [[_ ?]|?]; auto.
    - intros [?|?]; [by right|].
      destruct (decide (locked_by m = Some CLAUDE)); [by right|by left]. }
  split_and!; [done..|].
  intros Hreach b Hne Hb. rewrite Hiff. intros [Hc|Hav]; [congruence|].
  pose proof (reachable_available_unheld ws Hreach p m Hm Hav). congruence.
Qed.

Lemma X25_witness :
  ∃ files, status_files status_two_files = Some files ∧
           todo ∈ fi_path <$> files.
Proof.
  destruct (X25_status_lists_available_and_own_files ws_two_files true
              status_two_files (joinpath root todo) todo_created)
    as (rel & files & Hrel & Hfiles & Hiff & _).
  - vm_compute. reflexivity.
  - vm_compute. reflexivity.
  - vm_compute in Hrel. injection Hrel as <-.
    exists files. split; [exact Hfiles|]. apply Hiff. right. reflexivity.
Defined.



(** *** The rest of the view *)

(** X27. The rest of a view: it names the agent and the workspace root; the
    agent's directory is its own for CLAUDE and GEMINI and the shared one
    for HUMAN, which has none; [recent_changes] are the first ten events the
    audit log query finds; the context is the shared context file, or empty
    when there is none. *)
Theorem X27_agent_view_header ws agent view :
  result (get_agent_view agent) ws = Ret view →
  view_agent view = AgentType_value agent ∧
  workspace_root view = workspace_path ws ∧
  agent_dir view =
    joinname (workspace_path ws)
      (match agent with
       | CLAUDE => "claude_workspace"
       | GEMINI => "gemini_workspace"
       | HUMAN => "shared"
       end) ∧
  recent_changes view = take 10 (candidate_events (logs ws) agent) ∧
  current_context view =
    default "{}" (disk ws !! joinname (joinname (workspace_path ws) "context")
                                      "shared_context.json").
Proof.
  unfold get_agent_view, _get_current_context, _get_recent_events.
  unfold_monad. simpl.
  destruct (view_loop _ _ _ _ _) as [[sh lk]|]; [|done]. simpl.
  intros [= <-]. simpl. split_and!; try done.
  - by destruct agent.
  - by rewrite recent_events_closed_form.
Qed.

Lemma X27_witness :
  agent_dir view_two_files
    = joinname (workspace_path ws_two_files) "claude_workspace" ∧
  recent_changes view_two_files
    = take 10 (candidate_events (logs ws_two_files) CLAUDE).
Proof.
  destruct (X27_agent_view_header ws_two_files CLAUDE view_two_files)
    as (_ & _ & Hdir & Hrecent & _).
  - vm_compute. reflexivity.
  - split; [exact Hdir|exact Hrecent].
Defined.

(** *** Paths the server passes to the manager *)

(** X28. The paths the server hands to [write_file]: a file directly inside
    one of the workspace directories, made relative to the root, is a
    relative path that [relative_to] accepts, that joins back with the root
    to the same file and keeps the file name. *)
Theorem X28_server_paths_round_trip wp key dir file_name :
  dirs wp key = Some dir →
  ∃ rel, relative_to (joinname dir file_name) wp = Some rel ∧
         is_absolute rel = false ∧
         joinpath wp rel = joinname dir file_name ∧
         name rel = file_name.
Proof.
  intros Hdir.
  assert (∃ sub, dir = joinname wp sub) as [sub ->].
  { unfold dirs in Hdir. repeat case_decide; simplify_eq; eauto. }
  exists (mkPath false [sub; file_name]). split_and!; try done.
  - unfold relative_to, joinname. simpl. rewrite decide_True by done.
    rewrite <-app_assoc. by rewrite strip_prefix_app.
  - unfold joinpath, joinname. simpl. by rewrite <-app_assoc.
Qed.

Lemma X28_witness :
  ∃ rel, relative_to (joinname (joinname root "tasks") "t1_analyze.md") root
           = Some rel ∧
         is_absolute rel = false ∧
         joinpath root rel = joinname (joinname root "tasks") "t1_analyze.md" ∧
         name rel = "t1_analyze.md".
Proof.
  apply (X28_server_paths_round_trip root "tasks" (joinname root "tasks")
           "t1_analyze.md").
  vm_compute. reflexivity.
Defined.

(** ** The audit trail, and the history a snapshot keeps *)

Lemma ensure_tracked_logs env p ws : logs (ensure_tracked env p ws) = logs ws.
Proof. unfold ensure_tracked. by destruct (tracked _ _). Qed.

Lemma logged_history_at env p e ws :
  history_at (logged env p e ws) p = (λ h, h ++ [e])%list <$> history_at ws p.
Proof.
  unfold history_at. rewrite logged_metadata, lookup_alter_eq.
  by destruct (file_metadata ws !! p).
Qed.

Lemma appended_refl_one env p e ws ws' :
  logs ws' = append_line (day (now env)) e (logs ws) →
  history_at ws' p = Some (default [] (history_at ws p) ++ [e])%list →
  appended env p [e] ws ws'.
Proof. by split. Qed.

Lemma appended_step env p evs e ws ws1 ws2 :
  appended env p evs ws ws1 →
  logs ws2 = append_line (day (now env)) e (logs ws1) →
  history_at ws2 p = (λ h, h ++ [e])%list <$> history_at ws1 p →
  appended env p (evs ++ [e]) ws ws2.
Proof.
  intros [Hl Hh] Hl2 Hh2. split.
  - rewrite Hl2, Hl. unfold append_line. rewrite lookup_insert_eq. simpl.
    rewrite insert_insert_eq. by rewrite app_assoc.
  - rewrite Hh2, Hh. simpl. by rewrite app_assoc.
Qed.

(** A successful acquire logs one event. *)
Lemma acquire_file_trail ws env fp a w :
  let p := joinpath (workspace_path ws) fp in
  is_absolute fp = false →
  (∀ m, file_metadata ws !! p = Some m →
        ¬ (state m = LOCKED_WRITE ∧ locked_by m ≠ Some a)) →
  (w = true → mutex_held env (lock_path (workspace_path ws) fp) = false) →
  appended env p [event_of env a "acquired" fp (DWrite w)] ws
           (exec (acquire_file env fp a w) ws).
Proof.
  intros p Hrel Hguard Hfree. apply appended_refl_one; unfold exec.
  - destruct w.
    + rewrite acquire_file_exclusive_run by auto. fold p.
      cbv beta iota delta [snd]. rewrite logged_logs. simpl.
      by rewrite ensure_tracked_logs.
    + destruct (file_metadata ws !! p) as [m|] eqn:Hm;
        [destruct (decide (state m = LOCKED_WRITE)) as [Hst|Hst]|].
      * assert (holds_write ws p a) as Hheld.
        { apply holds_write_record. exists m. split_and!; try done.
          destruct (decide (locked_by m = Some a)); [done|].
          by destruct (Hguard m eq_refl). }
        rewrite acquire_file_own_write_run by done. fold p.
        cbv beta iota delta [snd]. by rewrite logged_logs.
      * rewrite acquire_file_shared_run by (fold p; congruence). fold p.
        cbv beta iota delta [snd]. rewrite logged_logs. simpl.
        by rewrite ensure_tracked_logs.
      * rewrite acquire_file_shared_run by (fold p; congruence). fold p.
        cbv beta iota delta [snd]. rewrite logged_logs. simpl.
        by rewrite ensure_tracked_logs.
  - destruct w.
    + rewrite acquire_file_exclusive_run by auto. fold p.
      cbv beta iota delta [snd]. rewrite logged_history_at.
      unfold history_at at 1. simpl. rewrite lookup_alter_eq.
      rewrite ensure_tracked_lookup. unfold history_at.
      by destruct (file_metadata ws !! p).
    + destruct (file_metadata ws !! p) as [m|] eqn:Hm;
        [destruct (decide (state m = LOCKED_WRITE)) as [Hst|Hst]|].
      * assert (holds_write ws p a) as Hheld.
        { apply holds_write_record. exists m. split_and!; try done.
          destruct (decide (locked_by m = Some a)); [done|].
          by destruct (Hguard m eq_refl). }
        rewrite acquire_file_own_write_run by done. fold p.
        cbv beta iota delta [snd]. rewrite logged_history_at.
        unfold history_at. simpl. by rewrite Hm.
      * rewrite acquire_file_shared_run by (fold p; congruence). fold p.
        cbv beta iota delta [snd]. rewrite logged_history_at.
        unfold history_at at 1. simpl. rewrite lookup_alter_eq.
        rewrite ensure_tracked_lookup. unfold history_at. by rewrite Hm.
      * rewrite acquire_file_shared_run by (fold p; congruence). fold p.
        cbv beta iota delta [snd]. rewrite logged_history_at.
        unfold history_at at 1. simpl. rewrite lookup_alter_eq.
        rewrite ensure_tracked_lookup. unfold history_at. by rewrite Hm.
Qed.

Lemma lock_released_trail env fp agent ws :
  logs (lock_released env fp agent ws)
  = append_line (day (now env)) (event_of env agent "released" fp DEmpty)
                (logs ws) ∧
  history_at (lock_released env fp agent ws) (joinpath (workspace_path ws) fp)
  = (λ h, h ++ [event_of env agent "released" fp DEmpty])%list
      <$> history_at ws (joinpath (workspace_path ws) fp).
Proof.
  unfold lock_released. split.
  - by rewrite logged_logs.
  - rewrite logged_history_at. unfold history_at. simpl.
    rewrite lookup_alter_eq. by destruct (file_metadata ws !! _).
Qed.

Lemma content_written_trail env fp content agent backup ws :
  workspace_path (content_written env fp content agent backup ws)
  = workspace_path ws ∧
  logs (content_written env fp content agent backup ws)
  = append_line (day (now env))
      (event_of env agent "wrote" fp (DSize (String.length content)))
      (logs ws) ∧
  history_at (content_written env fp content agent backup ws)
             (joinpath (workspace_path ws) fp)
  = (λ h, h ++ [event_of env agent "wrote" fp
                         (DSize (String.length content))])%list
      <$> history_at ws (joinpath (workspace_path ws) fp) ∧
  holder_at (content_written env fp content agent backup ws)
            (joinpath (workspace_path ws) fp)
  = holder_at ws (joinpath (workspace_path ws) fp).
Proof.
  unfold content_written. split_and!.
  - rewrite logged_workspace_path. simpl.
    by destruct (if backup then _ else _).
  - rewrite logged_logs. simpl. by destruct (if backup then _ else _).
  - rewrite logged_history_at. unfold history_at. simpl.
    rewrite lookup_alter_eq.
    destruct (if backup then _ else _); simpl;
      by destruct (file_metadata ws !! _).
  - rewrite logged_holder_at. unfold holder_at. simpl.
    rewrite lookup_alter_eq.
    destruct (if backup then _ else _); simpl;
      by destruct (file_metadata ws !! _).
Qed.

(** A successful write, step by step *)
Lemma write_file_run ws env fp content agent backup :
  is_absolute fp = false →
  mutex_held env (lock_path (workspace_path ws) fp) = false →
  (∀ m, file_metadata ws !! joinpath (workspace_path ws) fp = Some m →
        ¬ (state m = LOCKED_WRITE ∧ locked_by m ≠ Some agent)) →
  (∀ q, io_fault env q = false) →
  write_file env fp content agent backup ws =
  (Ret true,
   lock_released env fp agent
     (content_written env fp content agent backup
        (exec (acquire_file env fp agent true) ws))).
Proof.
  intros Hrel Hfree Hguard Hio.
  destruct (acquire_file_succeeds ws env fp agent true Hrel Hguard)
    as (Hr & Hwp & Hh & _); [done|].
  pose proof (run_pair (acquire_file env fp agent true) ws) as Hacq.
  rewrite Hr in Hacq. set (ws1 := exec _ ws) in *.
  rewrite <-Hwp in Hh.
  destruct (content_written_trail env fp content agent backup ws1)
    as (Hwp2 & _ & _ & Hh2).
  rewrite Hh in Hh2. rewrite <-Hwp2 in Hh2.
  pose proof (release_file_run _ env fp agent Hrel Hh2) as Hrel2.
  apply holder_at_Some in Hh as (m1 & Hm1 & Hlb1).
  unfold write_file. rewrite (bind_returns _ _ _ _ _ Hacq). simpl.
  apply try_finally_runs
    with (content_written env fp content agent backup ws1); [|exact Hrel2].
  unfold try_except, content_written. rewrite !bind_gets.
  set (p := joinpath (workspace_path ws1) fp) in *.
  set (wsb := match (if backup then disk ws1 !! p else None) with
              | Some old =>
                  with_disk
                    (insert (backup_path env (workspace_path ws1) fp) old) ws1
              | None => ws1
              end).
  rewrite (bind_returns _ _ _ tt wsb).
  2:{ unfold open_write, open_read. rewrite !Hio. subst wsb.
      unfold exists_on, bind, modify, ret, with_disk, backup_path. simpl.
      destruct backup; simpl; [|done].
      destruct (disk ws1 !! p) as [old|] eqn:Hold.
      - rewrite bool_decide_eq_true_2 by eauto. simpl. by rewrite Hold.
      - by rewrite bool_decide_eq_false_2 by (by intros [? ?]). }
  rewrite (bind_returns _ _ _ tt (with_disk (insert p content) wsb))
    by (unfold open_write; by rewrite Hio).
  rewrite bind_gets.
  rewrite (tracked_Some _ _ m1)
    by (subst wsb; simpl; by destruct (if backup then _ else _)).
  erewrite (bind_returns _ _ _ tt) by done.
  erewrite (bind_returns _ _ _ tt); [done|].
  subst p. apply log_file_event_run; [|done]. subst wsb. simpl.
  by destruct (if backup then _ else _).
Qed.

(** A successful read, step by step *)
Lemma read_file_run ws env fp agent content :
  let p := joinpath (workspace_path ws) fp in
  is_absolute fp = false →
  (∀ m, file_metadata ws !! p = Some m →
        ¬ (state m = LOCKED_WRITE ∧ locked_by m ≠ Some agent)) →
  io_fault env p = false → disk ws !! p = Some content →
  read_file env fp agent ws =
  (Ret (Some content),
   lock_released env fp agent
     (logged env p (event_of env agent "read" fp DEmpty)
        (exec (acquire_file env fp agent false) ws))).
Proof.
  intros p Hrel Hguard Hio Hdisk.
  destruct (acquire_file_succeeds ws env fp agent false Hrel Hguard)
    as (Hr & Hwp & Hh & _); [done|].
  destruct (acquire_file_keeps_fs (workspace_path ws) (disk ws) env fp agent
              false ws) as [_ Hd]; [done|].
  pose proof (run_pair (acquire_file env fp agent false) ws) as Hacq.
  rewrite Hr in Hacq. set (ws1 := exec _ ws) in *. fold p in Hh.
  set (ws2 := logged env p (event_of env agent "read" fp DEmpty) ws1).
  assert (workspace_path ws2 = workspace_path ws) as Hwp2
    by (subst ws2; by rewrite logged_workspace_path).
  assert (holder_at ws2 (joinpath (workspace_path ws2) fp)
          = Some (Some agent)) as Hh2.
  { rewrite Hwp2. fold p. subst ws2. by rewrite logged_holder_at. }
  pose proof (release_file_run ws2 env fp agent Hrel Hh2) as Hrel2.
  unfold read_file. rewrite (bind_returns _ _ _ _ _ Hacq). simpl.
  apply try_finally_runs with ws2; [|exact Hrel2].
  rewrite bind_gets, Hwp. fold p.
  rewrite (bind_returns _ _ _ content ws1).
  2:{ unfold open_read. by rewrite Hio, Hd, Hdisk. }
  rewrite (bind_returns _ _ _ tt ws2); [done|].
  by apply log_file_event_run.
Qed.



(** X30. What a restart keeps of a record besides its state and holder: for a
    path that is tracked and exists, the manager started from the saved
    snapshot has the last ten events of the history (all of them when there
    are fewer), the same [last_modified] and the same [checksum]. *)
Theorem X30_snapshot_keeps_last_ten_events ws env d l p m :
  file_metadata ws !! p = Some m → exists_on d p = true →
  ∃ m', file_metadata
          (WorkspaceManager_init (workspace_path ws) d l
             (state_file (exec (save_workspace_state env) ws))) !! p
        = Some m' ∧
    history m' `suffix_of` history m ∧
    length (history m') = min 10 (length (history m)) ∧
    last_modified m' = last_modified m ∧
    checksum m' = checksum m.
Proof.
  intros Hm Hex. rewrite restore_after_save, Hex, Hm.
  exists (restored p m). split; [done|].
  unfold restored, last_n. cbn [history last_modified checksum].
  split_and!; try done.
  - apply suffix_drop.
  - rewrite length_drop. lia.
Qed.

Lemma X30_witness :
  ∃ m', file_metadata
          (WorkspaceManager_init (workspace_path ws_two_files) disk_three ∅
             (state_file (exec (save_workspace_state (env_at 6 false false))
                               ws_two_files))) !! joinpath root notes
        = Some m' ∧
    history m' `suffix_of` history notes_record ∧
    length (history m') = min 10 (length (history notes_record)) ∧
    last_modified m' = last_modified notes_record ∧
    checksum m' = checksum notes_record.
Proof.
  apply (X30_snapshot_keeps_last_ten_events ws_two_files
           (env_at 6 false false) disk_three ∅ (joinpath root notes)
           notes_record).
  - vm_compute. reflexivity.
  - vm_compute. reflexivity.
Defined.
